(** * Course ranking pipeline (src/analyze.py)

    A shallow embedding of the exit-survey analysis script: completion
    filter, column resolver, course extractor, tally, scorer, ranker and
    the order in which the reporter touches the file system.

    Conventions of the embedding.
    - A Python [str] is a Rocq [string]; each character stands for the code
      point of the same number (the Latin-1 range).  Whitespace and case
      mapping follow Python's Unicode tables restricted to that range.
    - A spreadsheet cell is missing, a text, or another scalar known by its
      [str()] rendering.
    - A [dict] is an association list in insertion order with unique keys.
    - Python's [int / int] is the quotient rounded to the nearest double
      (ties to even); a double is represented by its exact value in [Q].
    - The chart is drawn by a plotting library that can raise on the
      labels it is given; the library is a parameter of [main]. *)

From Stdlib Require Import List String Ascii Bool Arith ZArith QArith Qabs Lia.
From Stdlib Require Import Permutation Sorted OrderedTypeEx.
From Stdlib Require Import DecimalString DecimalN DecimalPos.
Import ListNotations.

Close Scope Q_scope.
Open Scope string_scope.
Open Scope list_scope.
Open Scope nat_scope.

(** ** Python string primitives *)

Module PyStr.

(** [str.isspace] on one character: TAB..CR, FS..US, SPACE, NEL, NBSP. *)
Definition isspace (c : ascii) : bool :=
  let n := nat_of_ascii c in
  ((9 <=? n) && (n <=? 13)) || ((28 <=? n) && (n <=? 32))
  || (n =? 133) || (n =? 160).

Fixpoint lstrip (s : string) : string :=
  match s with
  | EmptyString => EmptyString
  | String c s' => if isspace c then lstrip s' else s
  end.

Fixpoint rstrip (s : string) : string :=
  match s with
  | EmptyString => EmptyString
  | String c s' =>
      match rstrip s' with
      | EmptyString => if isspace c then EmptyString else String c EmptyString
      | r => String c r
      end
  end.

(** [s.strip()] *)
Definition strip (s : string) : string := rstrip (lstrip s).

(** [str.lower] on one character: A..Z and the Latin-1 capitals. *)
Definition lower_char (c : ascii) : ascii :=
  let n := nat_of_ascii c in
  if ((65 <=? n) && (n <=? 90))
     || ((192 <=? n) && (n <=? 222) && negb (n =? 215))
  then ascii_of_nat (n + 32) else c.

Fixpoint lower (s : string) : string :=
  match s with
  | EmptyString => EmptyString
  | String c s' => String (lower_char c) (lower s')
  end.

(** [s.split(",")]: never empty, one more piece than there are commas. *)
Fixpoint split_comma (s : string) : list string :=
  match s with
  | EmptyString => [EmptyString]
  | String c s' =>
      if Ascii.eqb c ","%char then EmptyString :: split_comma s'
      else match split_comma s' with
           | p :: ps => String c p :: ps
           | [] => [String c EmptyString]
           end
  end.

(** [sub in s] *)
Fixpoint contains (sub s : string) : bool :=
  prefix sub s
  || match s with
     | EmptyString => false
     | String _ s' => contains sub s'
     end.

(** [bool(s)] for a string: non-empty. *)
Definition truth (s : string) : bool :=
  match s with EmptyString => false | _ => true end.

(** First and last character tests used to state what [strip] achieves. *)
Definition leading_space (s : string) : bool :=
  match s with String c _ => isspace c | EmptyString => false end.

Fixpoint trailing_space (s : string) : bool :=
  match s with
  | EmptyString => false
  | String c EmptyString => isspace c
  | String _ s' => trailing_space s'
  end.

Definition all_space (s : string) : bool :=
  forallb isspace (list_ascii_of_string s).

Definition has_comma (s : string) : bool :=
  existsb (Ascii.eqb ","%char) (list_ascii_of_string s).

End PyStr.

(** ** Cells, rows and frames *)

Inductive cell : Type :=
| NA                       (* None / NaN: [pd.isna] is true *)
| Str (s : string)         (* a text cell *)
| Scalar (shown : string). (* any other scalar, by its [str()] text *)

Definition isna (v : cell) : bool :=
  match v with NA => true | _ => false end.

(** [str(value)]; a missing float prints as "nan". *)
Definition str (v : cell) : string :=
  match v with
  | NA => "nan"
  | Str s => s
  | Scalar shown => shown
  end.

(** Column labels, already as text ([str(c)] for each), and the rows in
    order. *)
Record DataFrame : Type := mkFrame {
  columns : list string;
  rows : list (list cell)
}.

(** Position of the first column carrying a label. *)
Fixpoint get_loc (cols : list string) (label : string) : option nat :=
  match cols with
  | [] => None
  | c :: cols' =>
      if String.eqb c label then Some 0
      else option_map S (get_loc cols' label)
  end.

(** [row[label]]; frames are rectangular, a cell a ragged row lacks reads
    as missing. *)
Definition loc (cols : list string) (row : list cell) (label : string) : cell :=
  match get_loc cols label with
  | Some i => nth i row NA
  | None => NA
  end.

(** [df[label]]: the column as a series. *)
Definition series (df : DataFrame) (label : string) : list cell :=
  map (fun row => loc (columns df) row label) (rows df).

(** [df[mask]]: boolean indexing keeps the rows whose mask entry is true. *)
Fixpoint boolean_index (rs : list (list cell)) (mask : list bool)
  : list (list cell) :=
  match rs, mask with
  | r :: rs', b :: mask' =>
      if b then r :: boolean_index rs' mask' else boolean_index rs' mask'
  | _, _ => []
  end.

(** ** Errors *)

Inductive message : Type :=
| Dataset_not_found (path : string)
| No_responses_available
| Expected_exactly_one (keyword : string) (found : nat) (matches : list string)
| No_course_names_found.

(** The two exceptions the script raises itself, and any exception raised
    inside a library call and not caught, by class name and text. *)
Inductive exn : Type :=
| FileNotFoundError (m : message)
| ValueError (m : message)
| Propagated (class_name text : string).

Inductive result (A : Type) : Type :=
| Ok (a : A)
| Raise (e : exn).
Arguments Ok {A} a.
Arguments Raise {A} e.

Definition bind {A B : Type} (r : result A) (k : A -> result B) : result B :=
  match r with
  | Ok a => k a
  | Raise e => Raise e
  end.

Notation "x <- r ;; k" := (bind r (fun x => k))
  (at level 61, r at next level, right associativity).

(** The specification's names for the four fatal conditions. *)
Definition DATA_PATH : string := "data/Grad Program Exit Survey Data (2).xlsx".
Definition OUTPUT_DIR : string := "outputs".
Definition OUTPUT_CSV : string := "outputs/course_ranking.csv".
Definition OUTPUT_PNG : string := "outputs/course_ranking.png".

Definition DatasetNotFound : exn := FileNotFoundError (Dataset_not_found DATA_PATH).
Definition EmptyDataset : exn := ValueError No_responses_available.
Definition AmbiguousColumn (keyword : string) (matches : list string) : exn :=
  ValueError (Expected_exactly_one keyword (List.length matches) matches).
Definition NoCoursesFound : exn := ValueError No_course_names_found.

(** ** Completion filter, column resolver, course extractor *)

Definition truthy : list string := ["true"; "1"; "yes"; "y"; "t"].

Definition isin (s : string) (values : list string) : bool :=
  existsb (String.eqb s) values.

(** [series.astype(str).str.strip().str.lower().isin(truthy)] *)
Definition normalize_finished (s : list cell) : list bool :=
  map (fun v => isin (PyStr.lower (PyStr.strip (str v))) truthy) s.

(** [matches[0]] when [len(matches)] is 1, [ValueError] otherwise. *)
Definition find_group_column (cols : list string) (keyword : string)
  : result string :=
  let matches :=
    filter (fun c => PyStr.contains "Groups" c && PyStr.contains keyword c) cols in
  match matches with
  | [c] => Ok c
  | _ => Raise (ValueError
                  (Expected_exactly_one keyword (List.length matches) matches))
  end.

(** [p.strip()] for every piece, then the pieces that are truthy. *)
Definition split_courses (value : cell) : list string :=
  if isna value then []
  else
    let parts := map PyStr.strip (PyStr.split_comma (str value)) in
    filter PyStr.truth parts.

(** ** Tally *)

Inductive bucket_name : Type := Most | Neutral | Least.

Record counts : Type := mkCounts {
  most : nat;
  neutral : nat;
  least : nat
}.

(** [{"most": 0, "neutral": 0, "least": 0}] *)
Definition zero_counts : counts := mkCounts 0 0 0.

(** [counts[bucket_name] += 1] *)
Definition increment (b : bucket_name) (c : counts) : counts :=
  match b with
  | Most => mkCounts (S (most c)) (neutral c) (least c)
  | Neutral => mkCounts (most c) (S (neutral c)) (least c)
  | Least => mkCounts (most c) (neutral c) (S (least c))
  end.

Definition total (c : counts) : nat := most c + neutral c + least c.

(** The [course_stats] dictionary, in insertion order. *)
Definition stats : Type := list (string * counts).

Fixpoint dict_get (d : stats) (k : string) : option counts :=
  match d with
  | [] => None
  | (k', v) :: d' => if String.eqb k' k then Some v else dict_get d' k
  end.

(** [k in d] *)
Definition dict_mem (d : stats) (k : string) : bool :=
  match dict_get d k with Some _ => true | None => false end.

(** [d[k] = v] for a key that is absent: appended last. *)
Definition dict_add (d : stats) (k : string) (v : counts) : stats :=
  d ++ [(k, v)].

(** [d[k][b] += 1] for a key that is present: updated in place. *)
Fixpoint dict_increment (d : stats) (k : string) (b : bucket_name) : stats :=
  match d with
  | [] => []
  | (k', v) :: d' =>
      if String.eqb k' k then (k', increment b v) :: d'
      else (k', v) :: dict_increment d' k b
  end.

(** Body of the innermost loop. *)
Definition count_course (b : bucket_name) (course_stats : stats)
  (course : string) : stats :=
  let course_stats :=
    if negb (dict_mem course_stats course)
    then dict_add course_stats course zero_counts
    else course_stats in
  dict_increment course_stats course b.

(** The three resolved bucket columns. *)
Record bucket_columns : Type := mkBuckets {
  most_col : string;
  neutral_col : string;
  least_col : string
}.

(** The [buckets] dictionary of one row, in the order it is iterated. *)
Definition buckets (cols : list string) (bc : bucket_columns)
  (row : list cell) : list (bucket_name * list string) :=
  [ (Most, split_courses (loc cols row (most_col bc)));
    (Neutral, split_courses (loc cols row (neutral_col bc)));
    (Least, split_courses (loc cols row (least_col bc))) ].

Definition tally_row (cols : list string) (bc : bucket_columns)
  (course_stats : stats) (row : list cell) : stats :=
  fold_left
    (fun st (bk : bucket_name * list string) =>
       fold_left (count_course (fst bk)) (snd bk) st)
    (buckets cols bc row) course_stats.

(** The loop over [df.iterrows()], from an empty dictionary. *)
Definition tally (cols : list string) (bc : bucket_columns)
  (rs : list (list cell)) : stats :=
  fold_left (tally_row cols bc) rs [].

(** ** Score *)

(** Nearest integer to [num / den], ties to the even one ([den > 0]). *)
Definition round_half_even (num den : Z) : Z :=
  let q := (num / den)%Z in
  let r := (num mod den)%Z in
  match (2 * r ?= den)%Z with
  | Lt => q
  | Gt => (q + 1)%Z
  | Eq => if Z.even q then q else (q + 1)%Z
  end.

(** Numerator and denominator of [a / (b * 2^e)]. *)
Definition scaled (a b e : Z) : Z * Z :=
  if (0 <=? e)%Z then (a, (b * 2 ^ e)%Z) else ((a * 2 ^ (- e))%Z, b).

(** The exponent [e] of the last place: [2^52 <= a / (b * 2^e) < 2^53]. *)
Definition ulp_exponent (a b : Z) : Z :=
  let e0 := (Z.log2 a - Z.log2 b - 53)%Z in
  let '(num, den) := scaled a b e0 in
  if (num / den <? 2 ^ 53)%Z then e0 else (e0 + 1)%Z.

(** The value [m * 2^e] of a double with integral significand [m]. *)
Definition ldexp (m e : Z) : Q :=
  if (0 <=? e)%Z then inject_Z (m * 2 ^ e)
  else Qmake m (Z.to_pos (2 ^ (- e))).

(** [a / b] on ints [0 <= a], [0 < b]: the correctly rounded quotient in
    binary64 (53-bit significand), exponent range not modelled.  The call
    in [main] is guarded by the zero-row stop, so [ZeroDivisionError]
    cannot arise there. *)
Definition truediv (a b : Z) : Q :=
  if (a =? 0)%Z then 0%Q
  else
    let e := ulp_exponent a b in
    let '(num, den) := scaled a b e in
    ldexp (round_half_even num den) e.

(** ** Ranking rows *)

(** One dictionary of [ranking_rows], one line of [ranking_df]. *)
Record ranking_row : Type := mkRow {
  course : string;
  score : Q;
  row_most : nat;
  row_neutral : nat;
  row_least : nat;
  row_N : nat
}.

Definition make_row (n_responses : nat) (item : string * counts) : ranking_row :=
  let '(name, c) := item in
  mkRow name
    (truediv (Z.of_nat (2 * most c + 1 * neutral c + 0 * least c))
             (Z.of_nat n_responses))
    (most c) (neutral c) (least c) n_responses.

(** ** Ranker *)

Inductive sort_key : Type := by_score | by_most | by_neutral | by_course.

Definition compare_key (k : sort_key) (x y : ranking_row) : comparison :=
  match k with
  | by_score => Qcompare (score x) (score y)
  | by_most => Nat.compare (row_most x) (row_most y)
  | by_neutral => Nat.compare (row_neutral x) (row_neutral y)
  | by_course => String.compare (course x) (course y)
  end.

(** Lexicographic comparison along [by], each key flipped when its
    [ascending] flag is false. *)
Fixpoint lex_compare (keys : list (sort_key * bool)) (x y : ranking_row)
  : comparison :=
  match keys with
  | [] => Eq
  | (k, ascending) :: keys' =>
      let c := compare_key k x y in
      match (if ascending then c else CompOpp c) with
      | Eq => lex_compare keys' x y
      | c' => c'
      end
  end.

Definition sort_keys : list (sort_key * bool) :=
  combine [by_score; by_most; by_neutral; by_course]
          [false; false; false; true].

Definition row_leb (x y : ranking_row) : bool :=
  match lex_compare sort_keys x y with
  | Gt => false
  | _ => true
  end.

(** [sort_values] on several keys is a stable sort along the
    lexicographic key order; stable insertion gives that arrangement. *)
Fixpoint insert_sorted (x : ranking_row) (l : list ranking_row)
  : list ranking_row :=
  match l with
  | [] => [x]
  | y :: l' => if row_leb x y then x :: l else y :: insert_sorted x l'
  end.

Definition sort_values (l : list ranking_row) : list ranking_row :=
  fold_right insert_sorted [] l.

(** [reset_index(drop=True)] then [insert(0, "rank", index + 1)]. *)
Definition insert_rank (l : list ranking_row) : list (nat * ranking_row) :=
  combine (map (fun i => i + 1) (seq 0 (List.length l))) l.

Definition ranker (rows_ : list ranking_row) : list (nat * ranking_row) :=
  insert_rank (sort_values rows_).

(** ** The pipeline *)

(** What the process does to the outside world, in order. *)
Inductive effect : Type :=
| Mkdir (dir : string)
| ToCsv (path : string) (table : list (nat * ranking_row))
| SaveFig (path : string) (bars : list (string * Q))
| Print (n_responses : nat) (top : list (nat * ranking_row)).

(** [df.head(n)] *)
Definition head {A : Type} (n : nat) (l : list A) : list A := firstn n l.

(** The locals of [main] by the time it reaches the reporter. *)
Record analysis : Type := mkAnalysis {
  n_responses : nat;
  retained : list (list cell);
  resolved : bucket_columns;
  course_stats : stats;
  ranking_df : list (nat * ranking_row)
}.

(** Completion filter: lines 42-45. *)
Definition completion_filter (df : DataFrame) : DataFrame :=
  if existsb (String.eqb "Finished") (columns df)
  then mkFrame (columns df)
         (boolean_index (rows df) (normalize_finished (series df "Finished")))
  else df.

(** Lines 42-93: everything between reading the sheet and writing. *)
Definition analyze (df0 : DataFrame) : result analysis :=
  let df := completion_filter df0 in
  let n := List.length (rows df) in
  if n =? 0 then Raise (ValueError No_responses_available)
  else
    mc <- find_group_column (columns df) "Most Beneficial" ;;
    nc <- find_group_column (columns df) "Neutral" ;;
    lc <- find_group_column (columns df) "Least Beneficial" ;;
    let bc := mkBuckets mc nc lc in
    let cs := tally (columns df) bc (rows df) in
    match cs with
    | [] => Raise (ValueError No_course_names_found)
    | _ =>
        let ranking_rows := map (make_row n) cs in
        Ok (mkAnalysis n (rows df) bc cs (ranker ranking_rows))
    end.

(** The chart step, lines 99-109: the plotting library draws one bar per
    course with the course name as tick label and lays the figure out.
    Laying out can raise, depending on the names (a name with a pair of
    dollar signs is parsed as math text); [None] when it does not. *)
Definition plotter : Type := list (string * Q) -> option (string * string).

(** [top_15["course"]] and [top_15["score"]] as given to [barh]. *)
Definition chart_bars (a : analysis) : list (string * Q) :=
  let top_15 := head 15 (ranking_df a) in
  map (fun r => (course (snd r), score (snd r))) top_15.

(** Lines 95-115: directory, table, chart of the top 15, console.  An
    exception of the chart step ends the run after the table is written
    and before the image is. *)
Definition report (plot : plotter) (a : analysis)
  : list effect * result unit :=
  match plot (chart_bars a) with
  | Some (class_name, text) =>
      ([ Mkdir OUTPUT_DIR; ToCsv OUTPUT_CSV (ranking_df a) ],
       Raise (Propagated class_name text))
  | None =>
      ([ Mkdir OUTPUT_DIR;
         ToCsv OUTPUT_CSV (ranking_df a);
         SaveFig OUTPUT_PNG (chart_bars a);
         Print (n_responses a) (head 10 (ranking_df a)) ],
       Ok tt)
  end.

(** [main]: the file system holds the workbook's first sheet at
    [DATA_PATH], or nothing.  Returns the effects performed and how the
    process ended. *)
Definition main (plot : plotter) (workbook : option DataFrame)
  : list effect * result unit :=
  match workbook with
  | None => ([], Raise (FileNotFoundError (Dataset_not_found DATA_PATH)))
  | Some df =>
      match analyze df with
      | Raise e => ([], Raise e)
      | Ok a => report plot a
      end
  end.

(** The four failures the specification names. *)
Definition named_error (e : exn) : Prop :=
  e = DatasetNotFound
  \/ e = EmptyDataset
  \/ (exists keyword matches, e = AmbiguousColumn keyword matches)
  \/ e = NoCoursesFound.

(** ** Worked data *)

Definition survey_columns : list string :=
  [ "Finished";
    "Courses - Groups - Most Beneficial";
    "Courses - Groups - Neutral";
    "Courses - Groups - Least Beneficial" ].

(** The three completed rows of the specification's scenario, preceded by
    an unfinished one. *)
Definition survey : DataFrame :=
  mkFrame survey_columns
    [ [Str "False"; Str "Z"; NA; NA];
      [Str "True"; Str "A, B"; Str ""; Str "C"];
      [Str " yes "; Str "A"; Str "B"; NA];
      [Scalar "1"; NA; Str "A, C"; Str "B"] ].

(** One respondent naming the same course twice in one cell. *)
Definition survey_twice : DataFrame :=
  mkFrame survey_columns [ [Str "True"; Str "A, A"; NA; NA] ].

(** One finished respondent who named no course. *)
Definition survey_blank : DataFrame :=
  mkFrame survey_columns [ [Str "True"; Str " , "; NA; Str ""] ].

(** A plotting library that lays out every label, and one that raises on
    a given label. *)
Definition draws_all : plotter := fun _ => None.

Definition refuses (label : string) : plotter :=
  fun bars =>
    if existsb (fun bar => String.eqb (fst bar) label) bars
    then Some ("ValueError", "ParseException")
    else None.

(** ** The specification's wording, for comparison with the code *)

(** 4.2: a cell counts as finished when its text, trimmed and lowercased,
    is one of the five truthy words. *)
Definition finished_cell (v : cell) : bool :=
  if in_dec string_dec (PyStr.lower (PyStr.strip (str v)))
       ["true"; "1"; "yes"; "y"; "t"]
  then true else false.

(** 4.3: [sub] occurs in [s]. *)
Definition occurs_in (sub s : string) : Prop :=
  exists a b, s = (a ++ sub ++ b)%string.

(** 4.4: trim each piece and drop the pieces that are empty afterwards. *)
Fixpoint trim_and_discard_empty (pieces : list string) : list string :=
  match pieces with
  | [] => []
  | p :: ps =>
      let t := PyStr.strip p in
      if String.eqb t EmptyString then trim_and_discard_empty ps
      else t :: trim_and_discard_empty ps
  end.

Definition course_extractor (value : cell) : list string :=
  match value with
  | NA => []
  | _ => trim_and_discard_empty (PyStr.split_comma (str value))
  end.

(** 4.6: the order of the ranking.  Names are compared character by
    character on code points, so capitals sort before small letters. *)
Definition name_le (s1 s2 : string) : Prop :=
  s1 = s2 \/ String_as_OT.lt s1 s2.

Definition precedes (x y : ranking_row) : Prop :=
  (score y < score x)%Q
  \/ ((score x == score y)%Q
      /\ (row_most y < row_most x
          \/ (row_most x = row_most y
              /\ (row_neutral y < row_neutral x
                  \/ (row_neutral x = row_neutral y
                      /\ name_le (course x) (course y)))))).

(** A three-way comparison that behaves like one: swapping the arguments
    flips the answer, equal answers chain, and [Eq] arguments are
    interchangeable. *)
Definition lawful {A : Type} (cmp : A -> A -> comparison) : Prop :=
  (forall x y, cmp y x = CompOpp (cmp x y))
  /\ (forall c x y z, cmp x y = c -> cmp y z = c -> cmp x z = c)
  /\ (forall x y z, cmp x y = Eq -> cmp x z = cmp y z).

(** 3, 4.5 and 8: what a tally is meant to hold.  [mentions] counts every
    appearance of a course in a bucket cell, repeats within one cell
    included. *)
Definition counter (b : bucket_name) (c : counts) : nat :=
  match b with
  | Most => most c
  | Neutral => neutral c
  | Least => least c
  end.

Definition bucket_eqb (b1 b2 : bucket_name) : bool :=
  match b1, b2 with
  | Most, Most | Neutral, Neutral | Least, Least => true
  | _, _ => false
  end.

Definition bucket_col (bc : bucket_columns) (b : bucket_name) : string :=
  match b with
  | Most => most_col bc
  | Neutral => neutral_col bc
  | Least => least_col bc
  end.

Definition cell_mentions (cols : list string) (bc : bucket_columns)
  (b : bucket_name) (c : string) (row : list cell) : nat :=
  count_occ string_dec (split_courses (loc cols row (bucket_col bc b))) c.

Definition bucket_mentions (cols : list string) (bc : bucket_columns)
  (b : bucket_name) (c : string) (rs : list (list cell)) : nat :=
  list_sum (map (cell_mentions cols bc b c) rs).

Definition row_mentions (cols : list string) (bc : bucket_columns)
  (c : string) (row : list cell) : nat :=
  cell_mentions cols bc Most c row + cell_mentions cols bc Neutral c row
  + cell_mentions cols bc Least c row.

Definition mentions (cols : list string) (bc : bucket_columns)
  (c : string) (rs : list (list cell)) : nat :=
  bucket_mentions cols bc Most c rs + bucket_mentions cols bc Neutral c rs
  + bucket_mentions cols bc Least c rs.

(** [tally[c]], all zero for a course never met. *)
Definition tally_of (d : stats) (c : string) : counts :=
  match dict_get d c with
  | Some v => v
  | None => zero_counts
  end.

(** A course name as the extractor produces them. *)
Definition trimmed_nonempty (s : string) : Prop :=
  s <> EmptyString
  /\ PyStr.leading_space s = false
  /\ PyStr.trailing_space s = false.

(** 4.5: the exact quotient the specification writes for a ranking row. *)
Definition exact_score (r : ranking_row) : Q :=
  (inject_Z (Z.of_nat (2 * row_most r + 1 * row_neutral r + 0 * row_least r))
   / inject_Z (Z.of_nat (row_N r)))%Q.

(** ** Further definitions *)

(** Texts made of whitespace and commas only; the commas of a text. *)
Definition blank_text (s : string) : bool :=
  forallb (fun c => PyStr.isspace c || Ascii.eqb c ","%char)
          (list_ascii_of_string s).

Definition comma_count (s : string) : nat :=
  List.length (filter (Ascii.eqb ","%char) (list_ascii_of_string s)).

(** The columns in which both "Groups" and the keyword occur. *)
Definition group_matches (cols : list string) (keyword : string) : list string :=
  filter (fun c => PyStr.contains "Groups" c && PyStr.contains keyword c) cols.

(** [2 * most + 1 * neutral + 0 * least] of a ranking row. *)
Definition numerator (r : ranking_row) : nat :=
  2 * row_most r + 1 * row_neutral r + 0 * row_least r.

(** Rank and row together: later lines carry larger ranks and rows that do
    not come first in the order. *)
Definition ranked_before (p q : nat * ranking_row) : Prop :=
  fst p < fst q /\ row_leb (snd p) (snd q) = true.

(** [f"{score:.2f}"] (line 107): the score in hundredths, rounded to the
    nearest whole number of them, ties to the even one.  Scores are never
    negative; the sign is not modelled. *)
Definition hundredths (x : Q) : Z :=
  round_half_even (Qnum x * 100) (Z.pos (Qden x)).

(** The decimal numeral of a whole number, without leading zeros. *)
Definition decimal (n : Z) : string :=
  NilZero.string_of_uint (N.to_uint (Z.to_N n)).

(** The character of one decimal digit. *)
Definition digit_char (d : Z) : ascii := ascii_of_nat (48 + Z.to_nat d).

Definition format_2f (x : Q) : string :=
  let h := hundredths x in
  (decimal (h / 100) ++ "."
   ++ String (digit_char (h mod 100 / 10))
        (String (digit_char (h mod 10)) EmptyString))%string.

(** The labels written beside the bars, one per bar. *)
Definition annotations (top_15 : list (nat * ranking_row)) : list string :=
  map (fun r => format_2f (score (snd r))) top_15.

(** Reading a label back: the text before the point as a decimal numeral,
    then exactly two digits. *)
Fixpoint cut_at_point (s : string) : string * string :=
  match s with
  | EmptyString => (EmptyString, EmptyString)
  | String c s' =>
      if Ascii.eqb c "."%char then (EmptyString, s')
      else let '(a, b) := cut_at_point s' in (String c a, b)
  end.

Definition digit_value (c : ascii) : option Z :=
  let n := nat_of_ascii c in
  if (48 <=? n) && (n <=? 57) then Some (Z.of_nat (n - 48)) else None.

Definition read_2f (s : string) : option Z :=
  let '(ip, fp) := cut_at_point s in
  match NilZero.uint_of_string ip, fp with
  | Some u, String c1 (String c2 EmptyString) =>
      match digit_value c1, digit_value c2 with
      | Some d1, Some d2 => Some (Z.of_N (N.of_uint u) * 100 + d1 * 10 + d2)%Z
      | _, _ => None
      end
  | _, _ => None
  end.

(** No decimal point among the characters. *)
Definition point_free (s : string) : bool :=
  negb (existsb (Ascii.eqb "."%char) (list_ascii_of_string s)).


(** * Properties *)

(** ** Strings *)

Module PyStrFacts.
Import PyStr.

Lemma lstrip_no_leading_space s : leading_space (lstrip s) = false.
Proof.
  induction s as [|c s IH]; simpl; [reflexivity|].
  destruct (isspace c) eqn:E; [exact IH | simpl; exact E].
Qed.

Lemma rstrip_no_trailing_space s : trailing_space (rstrip s) = false.
Proof.
  induction s as [|c s IH]; simpl; [reflexivity|].
  destruct (rstrip s) as [|d r] eqn:E.
  - destruct (isspace c) eqn:Ec; simpl; [reflexivity | exact Ec].
  - exact IH.
Qed.

Lemma rstrip_keeps_head s :
  leading_space s = false -> leading_space (rstrip s) = false.
Proof.
  destruct s as [|c s]; simpl; [reflexivity|]. intros Hc.
  destruct (rstrip s); [rewrite Hc|]; simpl; exact Hc.
Qed.

Lemma strip_no_leading_space s : leading_space (strip s) = false.
Proof. apply rstrip_keeps_head, lstrip_no_leading_space. Qed.

Lemma strip_no_trailing_space s : trailing_space (strip s) = false.
Proof. apply rstrip_no_trailing_space. Qed.

Lemma lstrip_decomposes s :
  exists l, s = (l ++ lstrip s)%string /\ all_space l = true.
Proof.
  induction s as [|c s [l [Hs Hl]]]; simpl.
  - exists EmptyString; split; reflexivity.
  - destruct (isspace c) eqn:E.
    + exists (String c l); split; [simpl; f_equal; exact Hs|].
      unfold all_space in *; simpl; rewrite E; exact Hl.
    + exists EmptyString; split; reflexivity.
Qed.

Lemma rstrip_decomposes s :
  exists r, s = (rstrip s ++ r)%string /\ all_space r = true.
Proof.
  induction s as [|c s [r [Hs Hr]]]; simpl.
  - exists EmptyString; split; reflexivity.
  - destruct (rstrip s) as [|d t] eqn:E.
    + destruct (isspace c) eqn:Ec.
      * exists (String c r); split; [simpl in *; f_equal; exact Hs|].
        unfold all_space in *; simpl; rewrite Ec; exact Hr.
      * exists r; split; [simpl in *; f_equal; exact Hs | exact Hr].
    + exists r; split; [simpl in *; f_equal; exact Hs | exact Hr].
Qed.

(** [strip] removes a run of whitespace at each end and nothing else. *)
Lemma strip_decomposes s :
  exists l r, s = (l ++ strip s ++ r)%string
              /\ all_space l = true /\ all_space r = true.
Proof.
  destruct (lstrip_decomposes s) as [l [Hs Hl]].
  destruct (rstrip_decomposes (lstrip s)) as [r [Ht Hr]].
  exists l, r; repeat split; try assumption.
  unfold strip. rewrite <- Ht. exact Hs.
Qed.

Lemma split_comma_nonempty s : split_comma s <> [].
Proof.
  destruct s as [|c s]; simpl; [discriminate|].
  destruct (Ascii.eqb c ","); [discriminate|].
  destruct (split_comma s); discriminate.
Qed.

(** Joining the pieces with commas gives the text back. *)
Lemma concat_split_comma s : String.concat "," (split_comma s) = s.
Proof.
  induction s as [|c s IH]; [reflexivity|].
  simpl. destruct (Ascii.eqb c ",") eqn:E.
  - apply Ascii.eqb_eq in E; subst c.
    pose proof (split_comma_nonempty s) as Hne.
    destruct (split_comma s) as [|p ps]; [contradiction|].
    simpl in *. rewrite IH. reflexivity.
  - pose proof (split_comma_nonempty s) as Hne.
    destruct (split_comma s) as [|p ps]; [contradiction|].
    simpl in *. destruct ps; simpl in *; rewrite <- IH; reflexivity.
Qed.

(** No piece holds a comma. *)
Lemma split_comma_no_comma s :
  Forall (fun p => has_comma p = false) (split_comma s).
Proof.
  induction s as [|c s IH]; simpl.
  - constructor; [reflexivity | constructor].
  - destruct (Ascii.eqb c ",") eqn:E.
    + constructor; [reflexivity | exact IH].
    + assert (Hc : (","%char =? c)%char = false)
        by (rewrite Ascii.eqb_sym; exact E).
      destruct (split_comma s) as [|p ps].
      * constructor; [|constructor].
        unfold has_comma; cbn [existsb list_ascii_of_string].
        rewrite Hc. reflexivity.
      * inversion IH as [|? ? Hp Hps]; subst.
        constructor; [|exact Hps].
        unfold has_comma in *; cbn [existsb list_ascii_of_string].
        rewrite Hc. exact Hp.
Qed.

Lemma prefix_iff sub s :
  prefix sub s = true <-> exists b, s = (sub ++ b)%string.
Proof.
  revert s; induction sub as [|a sub IH]; intros s; simpl.
  - destruct s; split; eauto.
  - destruct s as [|b s]; simpl.
    + split; [discriminate | intros [t Ht]; discriminate].
    + destruct (ascii_dec a b) as [->|Hab].
      * rewrite IH. split; intros [t Ht]; exists t; congruence.
      * split; [discriminate | intros [t Ht]; congruence].
Qed.

Lemma contains_nil sub :
  contains sub EmptyString = prefix sub EmptyString.
Proof. unfold contains. apply orb_false_r. Qed.

Lemma contains_cons sub c s :
  contains sub (String c s) = prefix sub (String c s) || contains sub s.
Proof. reflexivity. Qed.

(** [contains sub s] is Python's [sub in s]: [sub] occurs as a
    contiguous block of [s]. *)
Lemma contains_iff sub s :
  contains sub s = true <-> exists a b, s = (a ++ sub ++ b)%string.
Proof.
  induction s as [|c s IH].
  - rewrite contains_nil, prefix_iff. split.
    + intros [b Hb]. exists EmptyString, b; exact Hb.
    + intros [a [b H]]. destruct a; [eauto | discriminate].
  - rewrite contains_cons, orb_true_iff, prefix_iff, IH. split.
    + intros [[b Hb] | [a [b H]]].
      * exists EmptyString, b; exact Hb.
      * exists (String c a), b; simpl; congruence.
    + intros [a [b H]]. destruct a as [|d a]; simpl in H.
      * left; eauto.
      * right. exists a, b. congruence.
Qed.

Lemma truth_iff s : truth s = true <-> s <> EmptyString.
Proof. destruct s; simpl; split; congruence. Qed.

End PyStrFacts.

(** ** Course extractor *)

Lemma filter_truth_strip pieces :
  filter PyStr.truth (map PyStr.strip pieces) = trim_and_discard_empty pieces.
Proof.
  induction pieces as [|p ps IH]; simpl; [reflexivity|].
  rewrite IH. destruct (PyStr.strip p); reflexivity.
Qed.

(** C6. A missing cell yields no course.  Any other cell yields its text
    split at commas, each piece trimmed, the empty ones dropped, order and
    repetitions kept: the pieces joined by commas are the text again and
    hold no comma themselves, and trimming takes whitespace off both ends
    of a piece and leaves none there.  The extractor is a function of the
    cell alone. *)
Theorem split_courses_extracts (value : cell) :
  split_courses NA = []
  /\ split_courses value = course_extractor value
  /\ (String.concat "," (PyStr.split_comma (str value)) = str value
      /\ Forall (fun p => PyStr.has_comma p = false)
           (PyStr.split_comma (str value)))
  /\ (forall p, exists l r,
         p = (l ++ PyStr.strip p ++ r)%string
         /\ PyStr.all_space l = true /\ PyStr.all_space r = true
         /\ PyStr.leading_space (PyStr.strip p) = false
         /\ PyStr.trailing_space (PyStr.strip p) = false).
Proof.
  split; [reflexivity|]. split; [|split].
  - destruct value; simpl; [reflexivity | |];
      unfold split_courses; simpl; apply filter_truth_strip.
  - split; [apply PyStrFacts.concat_split_comma
           | apply PyStrFacts.split_comma_no_comma].
  - intros p. destruct (PyStrFacts.strip_decomposes p) as [l [r [H [Hl Hr]]]].
    exists l, r. repeat split; try assumption.
    + apply PyStrFacts.strip_no_leading_space.
    + apply PyStrFacts.strip_no_trailing_space.
Qed.

(** ** Completion filter *)

Lemma isin_iff s values : isin s values = true <-> In s values.
Proof.
  unfold isin. rewrite existsb_exists. split.
  - intros [x [Hx Heq]]. apply String.eqb_eq in Heq. subst. exact Hx.
  - intros H. exists s. split; [exact H | apply String.eqb_refl].
Qed.

Lemma normalize_finished_cell v :
  isin (PyStr.lower (PyStr.strip (str v))) truthy = finished_cell v.
Proof.
  unfold finished_cell.
  destruct (in_dec string_dec _ _) as [H|H].
  - apply isin_iff. exact H.
  - destruct (isin _ truthy) eqn:E; [|reflexivity].
    apply isin_iff in E. contradiction.
Qed.

Lemma boolean_index_map (f : list cell -> bool) rs :
  boolean_index rs (map f rs) = filter f rs.
Proof.
  induction rs as [|r rs IH]; simpl; [reflexivity|].
  rewrite IH. reflexivity.
Qed.

Lemma existsb_eqb_in_dec (k : string) (l : list string) :
  existsb (String.eqb k) l = if in_dec string_dec k l then true else false.
Proof.
  destruct (in_dec string_dec k l) as [H|H].
  - apply existsb_exists. exists k. split; [exact H | apply String.eqb_refl].
  - destruct (existsb _ l) eqn:E; [|reflexivity].
    apply existsb_exists in E. destruct E as [x [Hx Heq]].
    apply String.eqb_eq in Heq. subst. contradiction.
Qed.

(** C7. With a column named exactly [Finished], the rows kept are those
    whose cell, as text, trimmed and lowercased, is one of "true", "1",
    "yes", "y", "t", in their original order; without it the frame is
    unchanged.  The five sample cells give true, true, false, false,
    false; an empty and a missing cell give false. *)
Theorem completion_filter_keeps_finished (df : DataFrame) :
  completion_filter df =
    (if in_dec string_dec "Finished" (columns df)
     then mkFrame (columns df)
            (filter (fun row => finished_cell (loc (columns df) row "Finished"))
                    (rows df))
     else df)
  /\ (forall s, normalize_finished s = map finished_cell s)
  /\ normalize_finished [Str " True "; Str "YES"; Str "0"; Str ""; Str "maybe"]
     = [true; true; false; false; false]
  /\ normalize_finished [Str ""; NA] = [false; false].
Proof.
  split; [|split; [|split; reflexivity]].
  - unfold completion_filter. rewrite existsb_eqb_in_dec.
    destruct (in_dec string_dec _ _); [|reflexivity].
    f_equal. unfold series, normalize_finished. rewrite map_map.
    rewrite boolean_index_map. apply filter_ext.
    intros row. apply normalize_finished_cell.
  - intros s. unfold normalize_finished. apply map_ext.
    intros v. apply normalize_finished_cell.
Qed.

(** ** Column resolver *)

Lemma group_match_iff keyword c :
  PyStr.contains "Groups" c && PyStr.contains keyword c = true
  <-> occurs_in "Groups" c /\ occurs_in keyword c.
Proof.
  rewrite andb_true_iff, !PyStrFacts.contains_iff. reflexivity.
Qed.

(** C8. The matches are the column names, in order and with repetitions,
    in which both "Groups" and the keyword occur.  With exactly one match
    the resolver returns it; with none or several it fails with
    AmbiguousColumn carrying the keyword and the whole list of matches. *)
Theorem find_group_column_resolves (cols : list string) (keyword : string) :
  let matches :=
    filter (fun c => PyStr.contains "Groups" c && PyStr.contains keyword c) cols in
  (forall c, In c matches
             <-> In c cols /\ occurs_in "Groups" c /\ occurs_in keyword c)
  /\ (List.length matches = 1 ->
      exists c, matches = [c] /\ find_group_column cols keyword = Ok c)
  /\ (List.length matches <> 1 ->
      find_group_column cols keyword = Raise (AmbiguousColumn keyword matches)).
Proof.
  intros matches. split; [|split].
  - intros c. unfold matches. rewrite filter_In, group_match_iff. reflexivity.
  - intros Hlen. unfold find_group_column. fold matches.
    destruct matches as [|c [|d l]]; try discriminate.
    exists c. split; reflexivity.
  - intros Hlen. unfold find_group_column, AmbiguousColumn. fold matches.
    destruct matches as [|c [|d l]]; try reflexivity.
    exfalso. apply Hlen. reflexivity.
Qed.

Lemma find_group_column_resolves_witness :
  find_group_column survey_columns "Neutral" = Ok "Courses - Groups - Neutral"
  /\ find_group_column ("Groups: Neutral (old)" :: survey_columns) "Neutral"
     = Raise (AmbiguousColumn "Neutral"
                ["Groups: Neutral (old)"; "Courses - Groups - Neutral"])
  /\ find_group_column ["Finished"] "Neutral"
     = Raise (AmbiguousColumn "Neutral" []).
Proof.
  split; [|split].
  - destruct (find_group_column_resolves survey_columns "Neutral")
      as [_ [H _]].
    destruct (H eq_refl) as [c [Hc Hr]].
    injection Hc as <-. exact Hr.
  - destruct (find_group_column_resolves
                ("Groups: Neutral (old)" :: survey_columns) "Neutral")
      as [_ [_ H]].
    apply H. vm_compute. discriminate.
  - destruct (find_group_column_resolves ["Finished"] "Neutral")
      as [_ [_ H]].
    apply H. vm_compute. discriminate.
Defined.

(** ** Ranker *)

Section Lawful.
Context {A : Type}.

Lemma lawful_eq_r (cmp : A -> A -> comparison) :
  lawful cmp -> forall x y z, cmp y z = Eq -> cmp x z = cmp x y.
Proof.
  intros [Hanti [_ Heq]] x y z H.
  assert (Hzy : cmp z y = Eq) by (rewrite Hanti, H; reflexivity).
  apply Heq with (z := x) in Hzy.
  rewrite (Hanti x z), (Hanti x y) in Hzy.
  destruct (cmp x z), (cmp x y); simpl in Hzy; congruence.
Qed.

Lemma lawful_flip (cmp : A -> A -> comparison) :
  lawful cmp -> lawful (fun x y => CompOpp (cmp x y)).
Proof.
  intros [Hanti [Htrans Heq]]. split; [|split].
  - intros x y. rewrite Hanti. reflexivity.
  - intros c x y z Hxy Hyz.
    rewrite (Htrans (CompOpp c) x y z).
    + apply CompOpp_involutive.
    + rewrite <- Hxy. symmetry. apply CompOpp_involutive.
    + rewrite <- Hyz. symmetry. apply CompOpp_involutive.
  - intros x y z H. f_equal. apply Heq.
    destruct (cmp x y); simpl in H; congruence.
Qed.

Lemma lawful_lex (c1 c2 : A -> A -> comparison) :
  lawful c1 -> lawful c2 ->
  lawful (fun x y => match c1 x y with Eq => c2 x y | c => c end).
Proof.
  intros L1 L2.
  pose proof (lawful_eq_r c1 L1) as Hr1.
  destruct L1 as [A1 [T1 E1]], L2 as [A2 [T2 E2]].
  split; [|split].
  - intros x y. rewrite A1. destruct (c1 x y); simpl; auto.
  - intros c x y z Hxy Hyz.
    destruct (c1 x y) eqn:Exy.
    + rewrite (E1 x y z Exy).
      destruct (c1 y z) eqn:Eyz; [eapply T2; eassumption | exact Hyz ..].
    + destruct (c1 y z) eqn:Eyz.
      * rewrite (Hr1 x y z Eyz), Exy. exact Hxy.
      * rewrite (T1 Lt x y z Exy Eyz). exact Hxy.
      * congruence.
    + destruct (c1 y z) eqn:Eyz.
      * rewrite (Hr1 x y z Eyz), Exy. exact Hxy.
      * congruence.
      * rewrite (T1 Gt x y z Exy Eyz). exact Hxy.
  - intros x y z H.
    destruct (c1 x y) eqn:Exy; try discriminate.
    rewrite (E1 x y z Exy). destruct (c1 y z); auto.
Qed.

Lemma lawful_Eq : lawful (fun _ _ : A => Eq).
Proof. repeat split; intros; congruence. Qed.

Lemma lawful_on {B : Type} (f : A -> B) (cmp : B -> B -> comparison) :
  lawful cmp -> lawful (fun x y => cmp (f x) (f y)).
Proof.
  intros [H1 [H2 H3]]. repeat split; intros; eauto.
Qed.

End Lawful.

Lemma lawful_nat_compare : lawful Nat.compare.
Proof.
  split; [|split].
  - intros x y. apply Nat.compare_antisym.
  - intros c x y z. destruct c; intros H1 H2.
    + apply Nat.compare_eq_iff in H1, H2. apply Nat.compare_eq_iff. lia.
    + apply Nat.compare_lt_iff in H1, H2. apply Nat.compare_lt_iff. lia.
    + apply Nat.compare_gt_iff in H1, H2. apply Nat.compare_gt_iff. lia.
  - intros x y z H. apply Nat.compare_eq_iff in H. subst. reflexivity.
Qed.

Lemma lawful_Qcompare : lawful Qcompare.
Proof.
  split; [|split].
  - intros x y. symmetry. apply Qcompare_antisym.
  - intros c x y z. destruct c; intros H1 H2.
    + apply Qeq_alt in H1, H2. apply Qeq_alt. rewrite H1. exact H2.
    + apply Qlt_alt in H1, H2. apply Qlt_alt. eapply Qlt_trans; eassumption.
    + apply Qgt_alt in H1, H2. apply Qgt_alt. eapply Qlt_trans; eassumption.
  - intros x y z H. apply Qeq_alt in H. rewrite H. reflexivity.
Qed.

Lemma string_compare_Gt s1 s2 :
  String.compare s1 s2 = Gt <-> String_as_OT.lt s2 s1.
Proof.
  rewrite <- String_as_OT.cmp_lt. unfold String_as_OT.cmp.
  rewrite (String.compare_antisym s1 s2).
  destruct (String.compare s2 s1); simpl; split; congruence.
Qed.

Lemma lawful_string_compare : lawful String.compare.
Proof.
  split; [|split].
  - intros x y. apply String.compare_antisym.
  - intros c x y z. destruct c; intros H1 H2.
    + apply String.compare_eq_iff in H1, H2. subst.
      apply String_as_OT.cmp_eq. reflexivity.
    + apply String_as_OT.cmp_lt in H1, H2. apply String_as_OT.cmp_lt.
      eapply String_as_OT.lt_trans; eassumption.
    + apply string_compare_Gt in H1, H2. apply string_compare_Gt.
      eapply String_as_OT.lt_trans; eassumption.
  - intros x y z H. apply String.compare_eq_iff in H. subst. reflexivity.
Qed.

Lemma lawful_compare_key k : lawful (compare_key k).
Proof.
  destruct k; unfold compare_key.
  - exact (lawful_on score Qcompare lawful_Qcompare).
  - exact (lawful_on row_most Nat.compare lawful_nat_compare).
  - exact (lawful_on row_neutral Nat.compare lawful_nat_compare).
  - exact (lawful_on course String.compare lawful_string_compare).
Qed.

Lemma lawful_lex_compare keys : lawful (lex_compare keys).
Proof.
  induction keys as [|[k ascending] keys IH]; simpl.
  - apply lawful_Eq.
  - destruct ascending.
    + exact (lawful_lex _ _ (lawful_compare_key k) IH).
    + exact (lawful_lex _ _ (lawful_flip _ (lawful_compare_key k)) IH).
Qed.

Lemma row_leb_total x y : row_leb x y = true \/ row_leb y x = true.
Proof.
  unfold row_leb.
  destruct (lawful_lex_compare sort_keys) as [Hanti _].
  rewrite (Hanti x y). destruct (lex_compare sort_keys x y); simpl; auto.
Qed.

Lemma row_leb_trans x y z :
  row_leb x y = true -> row_leb y z = true -> row_leb x z = true.
Proof.
  unfold row_leb.
  pose proof (lawful_eq_r _ (lawful_lex_compare sort_keys)) as Hr.
  destruct (lawful_lex_compare sort_keys) as [_ [Htrans Heq]].
  destruct (lex_compare sort_keys x y) eqn:Exy; try discriminate; intros _.
  - rewrite (Heq x y z Exy). trivial.
  - destruct (lex_compare sort_keys y z) eqn:Eyz; try discriminate; intros _.
    + rewrite (Hr x y z Eyz), Exy. reflexivity.
    + rewrite (Htrans Lt x y z Exy Eyz). reflexivity.
Qed.

Lemma row_leb_antisym x y :
  row_leb x y = true -> row_leb y x = true -> course x = course y.
Proof.
  unfold row_leb.
  destruct (lawful_lex_compare sort_keys) as [Hanti _].
  rewrite (Hanti x y).
  destruct (lex_compare sort_keys x y) eqn:E; simpl; try discriminate.
  intros _ _. revert E. unfold sort_keys; simpl.
  destruct (Qcompare (score x) (score y)); simpl; try discriminate.
  destruct (Nat.compare (row_most x) (row_most y)); simpl; try discriminate.
  destruct (Nat.compare (row_neutral x) (row_neutral y)); simpl;
    try discriminate.
  destruct (String.compare (course x) (course y)) eqn:Ec; try discriminate.
  intros _. apply String.compare_eq_iff. exact Ec.
Qed.

(** The comparison assembled from [by] and [ascending] is the order of
    section 4.6. *)
Lemma row_leb_precedes x y : row_leb x y = true <-> precedes x y.
Proof.
  unfold row_leb, precedes, name_le, sort_keys; simpl.
  destruct (Qcompare_spec (score x) (score y)) as [Hs|Hs|Hs]; simpl.
  - destruct (Nat.compare_spec (row_most x) (row_most y)) as [Hm|Hm|Hm]; simpl.
    + destruct (Nat.compare_spec (row_neutral x) (row_neutral y))
        as [Hn|Hn|Hn]; simpl.
      * destruct (String.compare (course x) (course y)) eqn:Ec.
        -- apply String.compare_eq_iff in Ec. split; auto 10.
        -- apply String_as_OT.cmp_lt in Ec. split; auto 10.
        -- apply string_compare_Gt in Ec. split; [discriminate|].
           intros [H|[_ [H|[_ [H|[_ [H|H]]]]]]].
           ++ rewrite Hs in H. exfalso. eapply Qlt_irrefl; eassumption.
           ++ lia.
           ++ lia.
           ++ rewrite H in Ec. exfalso.
              eapply String_as_OT.lt_not_eq; [exact Ec | reflexivity].
           ++ exfalso.
              eapply String_as_OT.lt_not_eq;
                [exact (String_as_OT.lt_trans _ _ _ H Ec) | reflexivity].
      * split; [discriminate|].
        intros [H|[_ [H|[_ [H|[H _]]]]]]; try lia.
        rewrite Hs in H. exfalso. eapply Qlt_irrefl; eassumption.
      * split; auto 10.
    + split; [discriminate|].
      intros [H|[_ [H|[H _]]]]; try lia.
      rewrite Hs in H. exfalso. eapply Qlt_irrefl; eassumption.
    + split; auto 10.
  - split; [discriminate|].
    intros [H|[H _]].
    + exfalso. eapply Qlt_irrefl. eapply Qlt_trans; eassumption.
    + rewrite H in Hs. exfalso. eapply Qlt_irrefl; eassumption.
  - split; auto.
Qed.

Lemma insert_sorted_perm x l : Permutation (x :: l) (insert_sorted x l).
Proof.
  induction l as [|y l IH]; simpl; [reflexivity|].
  destruct (row_leb x y); [reflexivity|].
  rewrite perm_swap. constructor. exact IH.
Qed.

Lemma sort_values_perm l : Permutation l (sort_values l).
Proof.
  induction l as [|x l IH]; simpl; [constructor|].
  rewrite <- insert_sorted_perm. constructor. exact IH.
Qed.

Lemma sort_values_length l : List.length (sort_values l) = List.length l.
Proof. symmetry. apply Permutation_length, sort_values_perm. Qed.

Lemma insert_sorted_sorted x l :
  StronglySorted (fun a b => row_leb a b = true) l ->
  StronglySorted (fun a b => row_leb a b = true) (insert_sorted x l).
Proof.
  induction 1 as [|y l Hs IH Hy]; simpl.
  - repeat constructor.
  - destruct (row_leb x y) eqn:E.
    + constructor; [constructor; assumption|].
      constructor; [exact E|].
      eapply Forall_impl; [|exact Hy].
      intros z Hz. eapply row_leb_trans; eassumption.
    + constructor; [exact IH|].
      apply (Permutation_Forall (insert_sorted_perm x l)).
      constructor; [|exact Hy].
      destruct (row_leb_total x y) as [H|H]; congruence.
Qed.

Lemma sort_values_sorted l :
  StronglySorted (fun a b => row_leb a b = true) (sort_values l).
Proof.
  induction l as [|x l IH]; simpl; [constructor|].
  apply insert_sorted_sorted. exact IH.
Qed.

Lemma NoDup_map_inj {A B : Type} (f : A -> B) l x y :
  NoDup (map f l) -> In x l -> In y l -> f x = f y -> x = y.
Proof.
  induction l as [|a l IH]; simpl; [contradiction|].
  intros Hnd Hx Hy Hf. inversion Hnd as [|? ? Hna Hnd']; subst.
  destruct Hx as [->|Hx], Hy as [->|Hy]; auto.
  - exfalso. apply Hna. rewrite Hf. apply in_map. exact Hy.
  - exfalso. apply Hna. rewrite <- Hf. apply in_map. exact Hx.
Qed.

(** Two arrangements of the same rows that both follow the order are the
    same list, as long as no course name repeats. *)
Lemma sorted_arrangement_unique l1 :
  forall l2,
    StronglySorted (fun a b => row_leb a b = true) l1 ->
    StronglySorted (fun a b => row_leb a b = true) l2 ->
    Permutation l1 l2 ->
    NoDup (map course l1) ->
    l1 = l2.
Proof.
  induction l1 as [|x l1 IH]; intros l2 S1 S2 P Hnd.
  - apply Permutation_nil in P. congruence.
  - destruct l2 as [|y l2].
    + apply Permutation_sym, Permutation_nil in P. discriminate.
    + assert (Hxy : x = y).
      { assert (Hx : In x (y :: l2))
          by (eapply Permutation_in; [exact P | left; reflexivity]).
        assert (Hy : In y (x :: l1))
          by (eapply Permutation_in;
              [apply Permutation_sym; exact P | left; reflexivity]).
        destruct Hx as [Hx|Hx]; [congruence|].
        destruct Hy as [Hy|Hy]; [congruence|].
        inversion S1 as [|? ? _ F1]; inversion S2 as [|? ? _ F2]; subst.
        rewrite Forall_forall in F1, F2.
        apply (NoDup_map_inj course (x :: l1)); auto.
        - left; reflexivity.
        - right; exact Hy.
        - apply row_leb_antisym; auto. }
      subst y. f_equal.
      inversion S1; inversion S2; inversion Hnd; subst.
      apply IH; auto.
      eapply Permutation_cons_inv; exact P.
Qed.

Lemma insert_rank_ranks l :
  map fst (insert_rank l) = seq 1 (List.length l).
Proof.
  unfold insert_rank.
  assert (H : forall (A B : Type) (xs : list A) (ys : list B),
             List.length xs = List.length ys ->
             map fst (combine xs ys) = xs).
  { intros A B xs. induction xs as [|a xs IH]; intros [|b ys] Hl;
      simpl in *; try reflexivity; try discriminate.
    f_equal. apply IH. lia. }
  rewrite H by (rewrite length_map, length_seq; reflexivity).
  rewrite <- seq_shift. apply map_ext. intros; lia.
Qed.

Lemma insert_rank_rows l : map snd (insert_rank l) = l.
Proof.
  unfold insert_rank.
  assert (H : forall (A B : Type) (ys : list B) (xs : list A),
             List.length xs = List.length ys ->
             map snd (combine xs ys) = ys).
  { intros A B ys. induction ys as [|b ys IH]; intros [|a xs] Hl;
      simpl in *; try reflexivity; try discriminate.
    f_equal. apply IH. lia. }
  apply H. rewrite length_map, length_seq. reflexivity.
Qed.

Lemma twice_sum_seq k a :
  2 * list_sum (seq a k) + k = 2 * a * k + k * k.
Proof.
  revert a. induction k as [|k IH]; intros a; simpl seq; simpl list_sum.
  - lia.
  - specialize (IH (S a)). nia.
Qed.

Lemma StronglySorted_impl {A : Type} (R1 R2 : A -> A -> Prop) l :
  (forall x y, R1 x y -> R2 x y) ->
  StronglySorted R1 l -> StronglySorted R2 l.
Proof.
  intros H. induction 1; constructor; auto.
  eapply Forall_impl; [|eassumption]. auto.
Qed.

(** C4. The ranked table holds the same rows as were given, arranged so
    that every row precedes all later ones in the order of section 4.6
    (higher score first, then higher most count, then higher neutral
    count, then the smaller name), and the rank of a row is its position
    counted from 1.  That order is what the [by] and [ascending] lists of
    the sort call denote. *)
Theorem ranker_orders_and_numbers (rows_ : list ranking_row) :
  Permutation rows_ (map snd (ranker rows_))
  /\ StronglySorted precedes (map snd (ranker rows_))
  /\ map fst (ranker rows_) = seq 1 (List.length rows_)
  /\ (forall x y, lex_compare sort_keys x y <> Gt <-> precedes x y).
Proof.
  unfold ranker. rewrite insert_rank_rows, insert_rank_ranks.
  split; [apply sort_values_perm|]. split; [|split].
  - eapply StronglySorted_impl; [|apply sort_values_sorted].
    intros x y. apply row_leb_precedes.
  - rewrite sort_values_length. reflexivity.
  - intros x y. rewrite <- row_leb_precedes. unfold row_leb.
    destruct (lex_compare sort_keys x y); split; congruence.
Qed.

Lemma make_row_course n cs : map course (map (make_row n) cs) = map fst cs.
Proof.
  rewrite map_map. apply map_ext. intros [k v]. reflexivity.
Qed.

Lemma ranker_permutation_invariant l1 l2 :
  NoDup (map course l1) -> Permutation l1 l2 -> ranker l1 = ranker l2.
Proof.
  intros Hnd P. unfold ranker. f_equal.
  apply sorted_arrangement_unique; try apply sort_values_sorted.
  - rewrite <- (sort_values_perm l1), <- (sort_values_perm l2). exact P.
  - eapply Permutation_NoDup; [|exact Hnd].
    apply Permutation_map, sort_values_perm.
Qed.

(** C5. For a tally of k distinct courses the ranks are 1, 2, ..., k in
    this order: none repeats, and their sum is k * (k + 1) / 2.  The
    ranking does not depend on the order in which the tally lists its
    courses, so ranking the same tallies again gives the same table. *)
Theorem ranks_dense_and_deterministic (n : nat) (cs cs' : stats) :
  NoDup (map fst cs) ->
  Permutation cs cs' ->
  let table := ranker (map (make_row n) cs) in
  let k := List.length cs in
  map fst table = seq 1 k
  /\ NoDup (map fst table)
  /\ list_sum (map fst table) = k * (k + 1) / 2
  /\ NoDup (map (fun r => course (snd r)) table)
  /\ ranker (map (make_row n) cs') = table.
Proof.
  intros Hnd P table k.
  assert (Hr : map fst table = seq 1 k).
  { unfold table, ranker. rewrite insert_rank_ranks, sort_values_length.
    rewrite length_map. reflexivity. }
  split; [exact Hr|]. rewrite Hr. split; [apply seq_NoDup|]. split; [|split].
  - pose proof (twice_sum_seq k 1) as Hsum.
    apply Nat.div_unique_exact; lia.
  - rewrite <- map_map. unfold table, ranker. rewrite insert_rank_rows.
    eapply Permutation_NoDup;
      [apply Permutation_map, sort_values_perm|].
    rewrite make_row_course. exact Hnd.
  - symmetry. apply ranker_permutation_invariant.
    + rewrite make_row_course. exact Hnd.
    + apply Permutation_map. exact P.
Qed.

Lemma ranks_dense_and_deterministic_witness :
  let cs := [("B", mkCounts 1 1 1); ("A", mkCounts 2 1 0)] in
  let cs' := [("A", mkCounts 2 1 0); ("B", mkCounts 1 1 1)] in
  map fst (ranker (map (make_row 3) cs)) = [1; 2]
  /\ ranker (map (make_row 3) cs') = ranker (map (make_row 3) cs).
Proof.
  intros cs cs'.
  assert (Hnd : NoDup (map fst cs)).
  { repeat constructor; simpl; intuition discriminate. }
  destruct (ranks_dense_and_deterministic 3 cs cs' Hnd (perm_swap _ _ _))
    as (Hr & _ & _ & _ & Hd).
  split; [exact Hr | exact Hd].
Defined.

(** ** Tally *)

Lemma dict_get_app d k v k' :
  dict_get (d ++ [(k, v)]) k' =
  match dict_get d k' with
  | Some x => Some x
  | None => if String.eqb k k' then Some v else None
  end.
Proof.
  induction d as [|[k1 v1] d IH]; simpl; [reflexivity|].
  destruct (String.eqb k1 k'); [reflexivity | exact IH].
Qed.

Lemma dict_get_increment d k b k' :
  dict_get (dict_increment d k b) k' =
  if String.eqb k k' then option_map (increment b) (dict_get d k)
  else dict_get d k'.
Proof.
  induction d as [|[k1 v1] d IH]; simpl.
  - destruct (String.eqb k k'); reflexivity.
  - destruct (String.eqb k1 k) eqn:E1; simpl.
    + apply String.eqb_eq in E1. subst k1.
      destruct (String.eqb k k'); reflexivity.
    + destruct (String.eqb k1 k') eqn:E2.
      * apply String.eqb_eq in E2. subst k1.
        rewrite String.eqb_sym, E1. reflexivity.
      * exact IH.
Qed.

Lemma count_course_absent b d c :
  dict_get d c = None ->
  count_course b d c = d ++ [(c, increment b zero_counts)].
Proof.
  intros H. unfold count_course, dict_mem, dict_add. rewrite H. simpl.
  induction d as [|[k v] d IH]; simpl in *.
  - rewrite String.eqb_refl. reflexivity.
  - destruct (String.eqb k c); [discriminate|]. rewrite IH; auto.
Qed.

Lemma count_course_present b d c v :
  dict_get d c = Some v -> count_course b d c = dict_increment d c b.
Proof.
  intros H. unfold count_course, dict_mem. rewrite H. reflexivity.
Qed.

Lemma dict_get_count_course b d c k :
  dict_get (count_course b d c) k =
  if String.eqb c k then Some (increment b (tally_of d c)) else dict_get d k.
Proof.
  unfold tally_of. destruct (dict_get d c) as [v|] eqn:E.
  - rewrite (count_course_present b d c v E), dict_get_increment, E.
    reflexivity.
  - rewrite (count_course_absent b d c E), dict_get_app.
    destruct (String.eqb c k) eqn:Ek.
    + apply String.eqb_eq in Ek. subst k. rewrite E. reflexivity.
    + destruct (dict_get d k); reflexivity.
Qed.

Lemma counter_increment b b' v :
  counter b' (increment b v) =
  counter b' v + (if bucket_eqb b b' then 1 else 0).
Proof. destruct b, b'; simpl; lia. Qed.

Lemma counter_count_course b b' d c k :
  counter b' (tally_of (count_course b d c) k) =
  counter b' (tally_of d k)
  + (if bucket_eqb b b' then (if string_dec c k then 1 else 0) else 0).
Proof.
  unfold tally_of at 1. rewrite dict_get_count_course.
  destruct (string_dec c k) as [->|Hne].
  - rewrite String.eqb_refl, counter_increment.
    destruct (bucket_eqb b b'); reflexivity.
  - apply String.eqb_neq in Hne. rewrite Hne.
    fold (tally_of d k). destruct (bucket_eqb b b'); lia.
Qed.

Lemma counter_fold_courses b b' courses :
  forall d k,
    counter b' (tally_of (fold_left (count_course b) courses d) k) =
    counter b' (tally_of d k)
    + (if bucket_eqb b b' then count_occ string_dec courses k else 0).
Proof.
  induction courses as [|c courses IH]; intros d k; simpl.
  - destruct (bucket_eqb b b'); lia.
  - rewrite IH, counter_count_course.
    destruct (bucket_eqb b b'); [|lia].
    destruct (string_dec c k); lia.
Qed.

Lemma counter_tally_row cols bc b' d row k :
  counter b' (tally_of (tally_row cols bc d row) k) =
  counter b' (tally_of d k) + cell_mentions cols bc b' k row.
Proof.
  unfold tally_row, buckets, cell_mentions. simpl.
  rewrite !counter_fold_courses. destruct b'; simpl; lia.
Qed.

Lemma counter_fold_rows cols bc b' rs :
  forall d k,
    counter b' (tally_of (fold_left (tally_row cols bc) rs d) k) =
    counter b' (tally_of d k) + bucket_mentions cols bc b' k rs.
Proof.
  unfold bucket_mentions.
  induction rs as [|row rs IH]; intros d k; simpl; [lia|].
  rewrite IH, counter_tally_row. lia.
Qed.

(** Each counter of a course is the number of times the course is listed
    in that bucket's column. *)
Lemma counter_tally cols bc b rs k :
  counter b (tally_of (tally cols bc rs) k) = bucket_mentions cols bc b k rs.
Proof.
  unfold tally. rewrite counter_fold_rows. destruct b; reflexivity.
Qed.

Lemma split_courses_trimmed v :
  Forall trimmed_nonempty (split_courses v).
Proof.
  unfold split_courses. destruct (isna v); [constructor|].
  apply Forall_forall. intros s Hs.
  apply filter_In in Hs. destruct Hs as [Hin Ht].
  apply in_map_iff in Hin. destruct Hin as [p [<- _]].
  split; [|split].
  - apply PyStrFacts.truth_iff. exact Ht.
  - apply PyStrFacts.strip_no_leading_space.
  - apply PyStrFacts.strip_no_trailing_space.
Qed.

(** Whatever holds of the empty dictionary and survives the counting of
    one extracted course holds of the finished tally. *)
Lemma tally_invariant (I : stats -> Prop) :
  I [] ->
  (forall b d c, I d -> trimmed_nonempty c -> I (count_course b d c)) ->
  forall cols bc rs, I (tally cols bc rs).
Proof.
  intros H0 Hstep cols bc rs. unfold tally.
  assert (Hfold : forall b courses d,
             Forall trimmed_nonempty courses -> I d ->
             I (fold_left (count_course b) courses d)).
  { intros b courses. induction courses as [|c courses IH]; intros d Hc Hd;
      simpl; [exact Hd|].
    inversion Hc; subst. apply IH; auto. }
  assert (Hrow : forall d row, I d -> I (tally_row cols bc d row)).
  { intros d row Hd. unfold tally_row, buckets. simpl.
    repeat apply Hfold; auto using split_courses_trimmed. }
  generalize dependent (@nil (string * counts)).
  induction rs as [|row rs IH]; intros d Hd; simpl; auto.
Qed.

Lemma dict_get_None_keys d k :
  dict_get d k = None <-> ~ In k (map fst d).
Proof.
  induction d as [|[k1 v1] d IH]; simpl.
  - split; auto.
  - destruct (String.eqb k1 k) eqn:E.
    + apply String.eqb_eq in E. split; [discriminate | intros H; tauto].
    + apply String.eqb_neq in E. rewrite IH. tauto.
Qed.

Lemma dict_increment_keys d k b :
  map fst (dict_increment d k b) = map fst d.
Proof.
  induction d as [|[k1 v1] d IH]; simpl; [reflexivity|].
  destruct (String.eqb k1 k); simpl; [reflexivity | f_equal; exact IH].
Qed.

Lemma dict_get_In d k v :
  NoDup (map fst d) -> (In (k, v) d <-> dict_get d k = Some v).
Proof.
  induction d as [|[k1 v1] d IH]; simpl; intros Hnd.
  - split; [contradiction | discriminate].
  - inversion Hnd as [|? ? Hn Hnd']; subst.
    destruct (String.eqb k1 k) eqn:E.
    + apply String.eqb_eq in E. subst k1. split.
      * intros [H|H]; [congruence|].
        exfalso. apply Hn. change k with (fst (k, v)). apply in_map. exact H.
      * intros H. left. congruence.
    + apply String.eqb_neq in E. rewrite <- (IH Hnd'). split.
      * intros [H|H]; [congruence | exact H].
      * auto.
Qed.

(** The dictionary never holds a key twice. *)
Lemma tally_keys_NoDup cols bc rs : NoDup (map fst (tally cols bc rs)).
Proof.
  apply (tally_invariant (fun d => NoDup (map fst d))); [constructor|].
  intros b d c Hd _. destruct (dict_get d c) as [v|] eqn:E.
  - rewrite (count_course_present b d c v E), dict_increment_keys. exact Hd.
  - rewrite (count_course_absent b d c E), map_app. simpl.
    apply dict_get_None_keys in E.
    apply NoDup_app; [exact Hd | repeat constructor; auto | ].
    intros x Hx [<-|[]]. contradiction.
Qed.

Lemma dict_increment_Forall (Q : string * counts -> Prop) d k b :
  (forall k v, Q (k, v) -> Q (k, increment b v)) ->
  Forall Q d -> Forall Q (dict_increment d k b).
Proof.
  intros HQ. induction 1 as [|[k1 v1] d H1 Hd IH]; simpl; [constructor|].
  destruct (String.eqb k1 k); constructor; auto.
Qed.

(** Every entry was counted at least once and is keyed by an extracted
    course name. *)
Lemma tally_entries cols bc rs :
  Forall (fun kv => trimmed_nonempty (fst kv) /\ 1 <= total (snd kv))
         (tally cols bc rs).
Proof.
  apply (tally_invariant
           (Forall (fun kv => trimmed_nonempty (fst kv) /\ 1 <= total (snd kv))));
    [constructor|].
  intros b d c Hd Hc. destruct (dict_get d c) as [v|] eqn:E.
  - rewrite (count_course_present b d c v E).
    apply dict_increment_Forall; [|exact Hd].
    intros k v' [Hk Hv]. split; [exact Hk|].
    unfold total in *. destruct b; simpl in *; lia.
  - rewrite (count_course_absent b d c E).
    apply Forall_app. split; [exact Hd|].
    constructor; [|constructor]. split; [exact Hc|].
    destruct b; unfold total; simpl; lia.
Qed.

(** C3. In the finished tally the three counters of a course add up to
    the number of times the course is listed over all retained rows and
    the three bucket columns, a repeat within one cell counting each
    time; counter by counter the same holds per bucket.  A course has an
    entry exactly when it is listed at least once. *)
Theorem tally_counts_mentions (cols : list string) (bc : bucket_columns)
  (rs : list (list cell)) (c : string) :
  let t := tally_of (tally cols bc rs) c in
  most t + neutral t + least t = mentions cols bc c rs
  /\ most t = bucket_mentions cols bc Most c rs
  /\ neutral t = bucket_mentions cols bc Neutral c rs
  /\ least t = bucket_mentions cols bc Least c rs
  /\ (dict_mem (tally cols bc rs) c = true <-> 1 <= mentions cols bc c rs).
Proof.
  intros t.
  pose proof (counter_tally cols bc Most rs c) as Hm.
  pose proof (counter_tally cols bc Neutral rs c) as Hn.
  pose proof (counter_tally cols bc Least rs c) as Hl.
  fold t in Hm, Hn, Hl. simpl in Hm, Hn, Hl.
  unfold mentions. repeat split; try lia.
  - intros Hmem. unfold dict_mem in Hmem.
    destruct (dict_get (tally cols bc rs) c) as [v|] eqn:E; [|discriminate].
    assert (Ht : t = v) by (unfold t, tally_of; rewrite E; reflexivity).
    apply dict_get_In in E; [|apply tally_keys_NoDup].
    pose proof (tally_entries cols bc rs) as Hall.
    rewrite Forall_forall in Hall. apply Hall in E.
    destruct E as [_ E]. unfold total in E. simpl in E.
    rewrite <- Ht in E. lia.
  - intros H. unfold dict_mem.
    destruct (dict_get (tally cols bc rs) c) eqn:E; [reflexivity|].
    unfold t, tally_of in Hm, Hn, Hl. rewrite E in Hm, Hn, Hl.
    simpl in *. lia.
Qed.

(** ** Score *)

Lemma round_half_even_cases num den :
  (0 < den)%Z ->
  round_half_even num den = (num / den)%Z
  \/ (round_half_even num den = (num / den + 1)%Z
      /\ (den <= 2 * (num mod den))%Z).
Proof.
  intros Hden. unfold round_half_even.
  destruct (Z.compare_spec (2 * (num mod den)) den) as [H|H|H].
  - destruct (Z.even (num / den)); [left; reflexivity | right; split; lia].
  - left; reflexivity.
  - right; split; lia.
Qed.

Lemma round_half_even_nonneg num den :
  (0 <= num)%Z -> (0 < den)%Z -> (0 <= round_half_even num den)%Z.
Proof.
  intros Hn Hd.
  assert (0 <= num / den)%Z by (apply Z.div_pos; lia).
  destruct (round_half_even_cases num den Hd) as [-> | [-> _]]; lia.
Qed.

Lemma round_half_even_le num den M :
  (0 < den)%Z -> (num <= M * den)%Z -> (round_half_even num den <= M)%Z.
Proof.
  intros Hd Hle.
  pose proof (Z.div_mod num den ltac:(lia)) as Hdm.
  pose proof (Z.mod_pos_bound num den Hd) as Hr.
  destruct (round_half_even_cases num den Hd) as [-> | [-> Hhalf]]; nia.
Qed.

Lemma round_half_even_small num den :
  (0 <= num)%Z -> (2 * num <= den)%Z -> (0 < den)%Z ->
  round_half_even num den = 0%Z.
Proof.
  intros Hn Hle Hd. unfold round_half_even.
  rewrite Z.div_small, Z.mod_small by lia.
  destruct (Z.compare_spec (2 * num) den); try reflexivity. lia.
Qed.

Lemma ldexp_nonneg m e : (0 <= m)%Z -> (0 <= ldexp m e)%Q.
Proof.
  intros Hm. unfold ldexp, Qle. destruct (0 <=? e)%Z eqn:E; simpl.
  - apply Z.leb_le in E. pose proof (Z.pow_nonneg 2 e ltac:(lia)). nia.
  - lia.
Qed.

Lemma scaled_pos a b e :
  (0 <= a)%Z -> (0 < b)%Z ->
  (0 <= fst (scaled a b e))%Z /\ (0 < snd (scaled a b e))%Z.
Proof.
  intros Ha Hb. unfold scaled. destruct (0 <=? e)%Z eqn:E; simpl.
  - apply Z.leb_le in E. pose proof (Z.pow_pos_nonneg 2 e ltac:(lia) E). nia.
  - apply Z.leb_gt in E.
    pose proof (Z.pow_pos_nonneg 2 (- e) ltac:(lia) ltac:(lia)). nia.
Qed.

Section Rounding.
Local Open Scope Z_scope.

Lemma round_half_even_nearest num den :
  0 < den ->
  let m := round_half_even num den in
  Z.abs (2 * (m * den - num)) <= den
  /\ (Z.abs (2 * (m * den - num)) = den -> Z.even m = true).
Proof.
  intros Hd m. subst m. unfold round_half_even.
  pose proof (Z.div_mod num den ltac:(lia)) as Hdm.
  pose proof (Z.mod_pos_bound num den Hd) as Hr.
  set (q := num / den) in *. set (r := num mod den) in *.
  destruct (Z.compare_spec (2 * r) den) as [H|H|H].
  - destruct (Z.even q) eqn:Ev.
    + split; [nia | intros _; exact Ev].
    + split; [nia|]. intros _.
      rewrite Z.add_1_r, Z.even_succ, <- Z.negb_even, Ev. reflexivity.
  - split; [nia | intros Habs; exfalso; nia].
  - split; [nia | intros Habs; exfalso; nia].
Qed.

Lemma scaled_first_guess a b :
  0 < a -> 0 < b ->
  let e0 := Z.log2 a - Z.log2 b - 53 in
  2 ^ 52 * snd (scaled a b e0) <= fst (scaled a b e0)
  /\ fst (scaled a b e0) < 2 ^ 54 * snd (scaled a b e0).
Proof.
  intros Ha Hb e0.
  pose proof (Z.log2_spec a Ha) as [La Ua].
  pose proof (Z.log2_spec b Hb) as [Lb Ub].
  pose proof (Z.log2_nonneg a) as Hla. pose proof (Z.log2_nonneg b) as Hlb.
  set (la := Z.log2 a) in *. set (lb := Z.log2 b) in *.
  assert (T52 : 0 < 2 ^ 52) by reflexivity.
  assert (T54 : 0 < 2 ^ 54) by reflexivity.
  unfold scaled. destruct (0 <=? e0) eqn:E; cbn [fst snd].
  - apply Z.leb_le in E.
    assert (H1 : 2 ^ la = 2 ^ 52 * 2 ^ e0 * 2 ^ Z.succ lb).
    { rewrite <- !Z.pow_add_r by lia. f_equal. lia. }
    assert (H2 : 2 ^ Z.succ la = 2 ^ 54 * 2 ^ e0 * 2 ^ lb).
    { rewrite <- !Z.pow_add_r by lia. f_equal. lia. }
    pose proof (Z.pow_pos_nonneg 2 e0 ltac:(lia) E) as HP.
    generalize dependent (2 ^ 52). generalize dependent (2 ^ 54).
    generalize dependent (2 ^ e0). intros P HP t54 T54 H2 t52 T52 H1.
    split.
    + apply Z.le_trans with (t52 * P * 2 ^ Z.succ lb); [|lia].
      replace (t52 * P * 2 ^ Z.succ lb) with (t52 * (P * 2 ^ Z.succ lb))
        by ring.
      apply Z.mul_le_mono_nonneg_l; [lia | nia].
    + apply Z.lt_le_trans with (t54 * P * 2 ^ lb); [lia|].
      replace (t54 * P * 2 ^ lb) with (t54 * (P * 2 ^ lb)) by ring.
      apply Z.mul_le_mono_nonneg_l; [lia | nia].
  - apply Z.leb_gt in E.
    assert (H1 : 2 ^ la * 2 ^ (- e0) = 2 ^ 52 * 2 ^ Z.succ lb).
    { rewrite <- !Z.pow_add_r by lia. f_equal. lia. }
    assert (H2 : 2 ^ Z.succ la * 2 ^ (- e0) = 2 ^ 54 * 2 ^ lb).
    { rewrite <- !Z.pow_add_r by lia. f_equal. lia. }
    pose proof (Z.pow_pos_nonneg 2 (- e0) ltac:(lia) ltac:(lia)) as HP.
    generalize dependent (2 ^ 52). generalize dependent (2 ^ 54).
    generalize dependent (2 ^ (- e0)). intros P HP t54 T54 H2 t52 T52 H1.
    split.
    + apply Z.le_trans with (2 ^ la * P); [|nia].
      rewrite H1. apply Z.mul_le_mono_nonneg_l; lia.
    + apply Z.lt_le_trans with (2 ^ Z.succ la * P); [nia|].
      rewrite H2. apply Z.mul_le_mono_nonneg_l; lia.
Qed.

Lemma scaled_next a b e :
  0 < a -> 0 < b ->
  fst (scaled a b (e + 1)) * (2 * snd (scaled a b e))
  = fst (scaled a b e) * snd (scaled a b (e + 1)).
Proof.
  intros Ha Hb. unfold scaled.
  destruct (0 <=? e) eqn:E.
  - apply Z.leb_le in E.
    assert (E' : (0 <=? e + 1) = true) by (apply Z.leb_le; lia).
    rewrite E'. cbn [fst snd]. rewrite Z.pow_add_r by lia. change (2 ^ 1) with 2. ring.
  - apply Z.leb_gt in E.
    destruct (0 <=? e + 1) eqn:E'; cbn [fst snd].
    + apply Z.leb_le in E'. assert (e = -1) by lia. subst e.
      change (2 ^ (-1 + 1)) with 1. change (2 ^ (- -1)) with 2. ring.
    + apply Z.leb_gt in E'.
      replace (- e) with (- (e + 1) + 1) by lia.
      rewrite Z.pow_add_r by lia. change (2 ^ 1) with 2. ring.
Qed.

Lemma ulp_exponent_normalizes a b :
  0 < a -> 0 < b ->
  let e := ulp_exponent a b in
  2 ^ 52 * snd (scaled a b e) <= fst (scaled a b e)
  /\ fst (scaled a b e) < 2 ^ 53 * snd (scaled a b e).
Proof.
  intros Ha Hb. unfold ulp_exponent.
  pose proof (scaled_first_guess a b Ha Hb) as [Hlo Hhi].
  pose proof (scaled_next a b (Z.log2 a - Z.log2 b - 53) Ha Hb) as Hnext.
  pose proof (scaled_pos a b (Z.log2 a - Z.log2 b - 53) ltac:(lia) Hb) as [_ Hd0].
  pose proof (scaled_pos a b (Z.log2 a - Z.log2 b - 53 + 1) ltac:(lia) Hb) as [_ Hd1].
  set (e0 := Z.log2 a - Z.log2 b - 53) in *.
  destruct (scaled a b e0) as [n0 d0] eqn:E0. cbn [fst snd] in *.
  pose proof (Z.div_mod n0 d0 ltac:(lia)) as Hdm.
  pose proof (Z.mod_pos_bound n0 d0 Hd0) as Hr.
  destruct (n0 / d0 <? 2 ^ 53) eqn:Elt.
  - apply Z.ltb_lt in Elt. rewrite E0. cbn [fst snd]. split; [exact Hlo | nia].
  - apply Z.ltb_ge in Elt.
    destruct (scaled a b (e0 + 1)) as [n1 d1]. cbn [fst snd] in *.
    assert (Hge : 2 ^ 53 * d0 <= n0) by nia.
    split.
    + apply Z.mul_le_mono_pos_r with (p := 2 * d0); [lia|].
      rewrite Hnext. nia.
    + apply Z.mul_lt_mono_pos_r with (p := 2 * d0); [lia|].
      rewrite Hnext. nia.
Qed.

(** [truediv] is correctly rounded: its value is [m * 2^e] where [e]
    makes [a / (b * 2^e)] a 53-bit quantity and [m] is the integer nearest
    to it, the even one on a tie. *)
Theorem truediv_correctly_rounded a b :
  0 < a -> 0 < b ->
  let e := ulp_exponent a b in
  let num := fst (scaled a b e) in
  let den := snd (scaled a b e) in
  let m := round_half_even num den in
  truediv a b = ldexp m e
  /\ 2 ^ 52 * den <= num < 2 ^ 53 * den
  /\ Z.abs (2 * (m * den - num)) <= den
  /\ (Z.abs (2 * (m * den - num)) = den -> Z.even m = true).
Proof.
  intros Ha Hb e num den m.
  pose proof (scaled_pos a b e ltac:(lia) Hb) as [_ Hden].
  split; [|split; [exact (ulp_exponent_normalizes a b Ha Hb)|]].
  - unfold truediv. destruct (Z.eqb_spec a 0) as [->|_]; [lia|].
    subst m num den. fold e. destruct (scaled a b e); reflexivity.
  - exact (round_half_even_nearest num den Hden).
Qed.

End Rounding.

Lemma half_ulp_relative (x t a : Z) :
  (Z.abs (2 * x) <= t)%Z -> (2 ^ 52 * t <= a)%Z -> (Z.abs x * 2 ^ 53 <= a)%Z.
Proof. change (2 ^ 53)%Z with (2 * 2 ^ 52)%Z. lia. Qed.

(** The double differs from the exact quotient by at most 2^-53 of it. *)
Lemma truediv_relative_error a b :
  (0 <= a)%Z -> (0 < b)%Z ->
  (Qabs (truediv a b - inject_Z a / inject_Z b)
   <= (inject_Z a / inject_Z b) * (1 # 2 ^ 53))%Q.
Proof.
  intros Ha Hb.
  destruct (Z.eq_dec a 0) as [->|Hne].
  { destruct b; try lia. vm_compute. discriminate. }
  destruct (truediv_correctly_rounded a b ltac:(lia) Hb)
    as (Hv & [Hlo _] & Hnear & _).
  rewrite Hv. clear Hv.
  set (e := ulp_exponent a b) in *.
  set (m := round_half_even (fst (scaled a b e)) (snd (scaled a b e))) in *.
  clearbody m e.
  destruct b as [|pb|pb]; try lia.
  unfold scaled, ldexp in *.
  destruct (0 <=? e)%Z eqn:E; cbn [fst snd] in *.
  - pose proof (half_ulp_relative _ _ _ Hnear Hlo) as Hrel.
    cbv [Qle Qabs Qminus Qplus Qopp Qmult Qdiv Qinv inject_Z Qnum Qden].
    rewrite !Pos2Z.inj_mul, !Z.mul_1_r, !Z.mul_1_l.
    replace (m * 2 ^ e * Z.pos pb + - a)%Z
      with (m * (Z.pos pb * 2 ^ e) - a)%Z by ring.
    change (Z.pos (2 ^ 53)) with (2 ^ 53)%Z.
    revert Hrel. generalize (Z.abs (m * (Z.pos pb * 2 ^ e) - a)) (2 ^ 53)%Z.
    intros; nia.
  - apply Z.leb_gt in E.
    pose proof (half_ulp_relative _ _ _ Hnear Hlo) as Hrel.
    pose proof (Z.pow_pos_nonneg 2 (- e) ltac:(lia) ltac:(lia)) as Hp.
    destruct (2 ^ (- e))%Z as [|p|p] eqn:Ep; try lia.
    cbv [Qle Qabs Qminus Qplus Qopp Qmult Qdiv Qinv inject_Z Qnum Qden
         Z.to_pos].
    rewrite !Pos2Z.inj_mul, !Z.mul_1_r, !Z.mul_1_l.
    change (Z.pos (2 ^ 53)) with (2 ^ 53)%Z.
    replace (m * Z.pos pb + - a * Z.pos p)%Z
      with (m * Z.pos pb - a * Z.pos p)%Z by ring.
    revert Hrel. generalize (Z.abs (m * Z.pos pb - a * Z.pos p)) (2 ^ 53)%Z.
    intros; nia.
Qed.

(** A quotient of a count by a positive count is never negative. *)
Lemma truediv_nonneg a b :
  (0 <= a)%Z -> (0 < b)%Z -> (0 <= truediv a b)%Q.
Proof.
  intros Ha Hb. unfold truediv.
  destruct (a =? 0)%Z; [apply Qle_refl|].
  pose proof (scaled_pos a b (ulp_exponent a b) Ha Hb) as [Hn Hd].
  destruct (scaled a b (ulp_exponent a b)) as [num den]. simpl in *.
  apply ldexp_nonneg, round_half_even_nonneg; assumption.
Qed.

(** Rounding does not carry a quotient of at most 2 beyond 2. *)
Lemma truediv_le_2 a b :
  (0 <= a)%Z -> (0 < b)%Z -> (a <= 2 * b)%Z -> (truediv a b <= 2)%Q.
Proof.
  intros Ha Hb Hab. unfold truediv.
  destruct (a =? 0)%Z; [discriminate|].
  generalize (ulp_exponent a b). intros e.
  unfold scaled, ldexp. destruct (0 <=? e)%Z eqn:E.
  - apply Z.leb_le in E. unfold Qle; simpl. rewrite Z.mul_1_r.
    destruct (Z.eq_dec e 0) as [->|He0].
    + simpl. rewrite !Z.mul_1_r. apply round_half_even_le; lia.
    + destruct (Z.eq_dec e 1) as [->|He1].
      * change (2 ^ 1)%Z with 2%Z.
        assert (round_half_even a (b * 2) <= 1)%Z
          by (apply round_half_even_le; lia).
        lia.
      * assert (Hpow : (4 <= 2 ^ e)%Z).
        { change 4%Z with (2 ^ 2)%Z. apply Z.pow_le_mono_r; lia. }
        rewrite round_half_even_small by nia. lia.
  - apply Z.leb_gt in E. unfold Qle; cbn [Qnum Qden].
    pose proof (Z.pow_pos_nonneg 2 (- e) ltac:(lia) ltac:(lia)) as Hp.
    rewrite Z2Pos.id by exact Hp. rewrite Z.mul_1_r.
    apply round_half_even_le; [exact Hb | nia].
Qed.


(** ** The pipeline as a whole *)

(** The scenario of section 8: tallies, N, and the order A, B, C. *)
Example scenario_tally :
  tally survey_columns
    (mkBuckets "Courses - Groups - Most Beneficial"
       "Courses - Groups - Neutral" "Courses - Groups - Least Beneficial")
    (List.tl (rows survey))
  = [("A", mkCounts 2 1 0); ("B", mkCounts 1 1 1); ("C", mkCounts 0 1 1)].
Proof. reflexivity. Qed.

Example scenario_ranking :
  exists a, analyze survey = Ok a
    /\ n_responses a = 3
    /\ map (fun r => (fst r, course (snd r))) (ranking_df a)
       = [(1, "A"); (2, "B"); (3, "C")].
Proof. eexists. split; [vm_compute; reflexivity|]. split; reflexivity. Qed.

Example split_courses_sample :
  split_courses (Str " A, B ,,A , ") = ["A"; "B"; "A"].
Proof. reflexivity. Qed.

Example normalize_finished_sample :
  normalize_finished [Scalar "1"; Scalar "1.0"; Str "T"; Str "no"]
  = [true; false; true; false].
Proof. reflexivity. Qed.

(** What a completed analysis consists of. *)
Lemma analyze_Ok df a :
  analyze df = Ok a ->
  let df' := completion_filter df in
  n_responses a = List.length (rows df')
  /\ 0 < n_responses a
  /\ retained a = rows df'
  /\ find_group_column (columns df') "Most Beneficial"
     = Ok (most_col (resolved a))
  /\ find_group_column (columns df') "Neutral"
     = Ok (neutral_col (resolved a))
  /\ find_group_column (columns df') "Least Beneficial"
     = Ok (least_col (resolved a))
  /\ course_stats a = tally (columns df') (resolved a) (rows df')
  /\ course_stats a <> []
  /\ ranking_df a
     = ranker (map (make_row (n_responses a)) (course_stats a)).
Proof.
  intros H df'. unfold analyze in H. fold df' in H.
  destruct (List.length (rows df') =? 0) eqn:En; [discriminate|].
  apply Nat.eqb_neq in En.
  destruct (find_group_column (columns df') "Most Beneficial")
    as [mc|] eqn:Em; [|discriminate].
  destruct (find_group_column (columns df') "Neutral")
    as [nc|] eqn:Enc; [|discriminate].
  destruct (find_group_column (columns df') "Least Beneficial")
    as [lc|] eqn:El; [|discriminate].
  cbn [bind] in H.
  destruct (tally (columns df') (mkBuckets mc nc lc) (rows df'))
    as [|kv cs] eqn:Et; [discriminate|].
  injection H as Ha. subst a. cbn. rewrite Et.
  repeat split; try reflexivity; try lia; try assumption.
  discriminate.
Qed.

Lemma ranker_In rows_ rk r : In (rk, r) (ranker rows_) -> In r rows_.
Proof.
  intros H. apply (in_map snd) in H. simpl in H.
  unfold ranker in H. rewrite insert_rank_rows in H.
  eapply Permutation_in; [apply Permutation_sym, sort_values_perm | exact H].
Qed.

Lemma In_ranker rows_ r : In r rows_ -> exists rk, In (rk, r) (ranker rows_).
Proof.
  intros H.
  assert (Hin : In r (map snd (ranker rows_))).
  { unfold ranker. rewrite insert_rank_rows.
    eapply Permutation_in; [apply sort_values_perm | exact H]. }
  apply in_map_iff in Hin. destruct Hin as [[rk r'] [Heq Hin]].
  simpl in Heq. subst r'. exists rk. exact Hin.
Qed.

(** Every row of the table is [make_row] of one tally entry. *)
Lemma ranking_row_origin df a rk r :
  analyze df = Ok a ->
  In (rk, r) (ranking_df a) ->
  row_N r = n_responses a
  /\ In (course r, mkCounts (row_most r) (row_neutral r) (row_least r))
        (course_stats a)
  /\ score r
     = truediv (Z.of_nat (2 * row_most r + 1 * row_neutral r + 0 * row_least r))
               (Z.of_nat (n_responses a)).
Proof.
  intros H Hin.
  destruct (analyze_Ok df a H) as (_ & _ & _ & _ & _ & _ & _ & _ & Hr).
  rewrite Hr in Hin. apply ranker_In in Hin.
  apply in_map_iff in Hin. destruct Hin as [[c [m n l]] [<- Hin]].
  simpl. repeat split. exact Hin.
Qed.

(** The counts of a row are the mentions of its course. *)
Lemma ranking_row_mentions df a rk r :
  analyze df = Ok a ->
  In (rk, r) (ranking_df a) ->
  row_most r + row_neutral r + row_least r
  = mentions (columns (completion_filter df)) (resolved a) (course r)
      (rows (completion_filter df)).
Proof.
  intros H Hin.
  destruct (analyze_Ok df a H) as (_ & _ & _ & _ & _ & _ & Ht & _ & _).
  destruct (ranking_row_origin df a rk r H Hin) as (_ & Hstat & _).
  rewrite Ht in Hstat.
  apply dict_get_In in Hstat; [|apply tally_keys_NoDup].
  unfold mentions. rewrite <- !counter_tally.
  unfold tally_of. rewrite Hstat. reflexivity.
Qed.

(** C1, as stated, fails: on the scenario of the specification course C
    has one neutral mention among three respondents, and its score is the
    double next to one third, which is not one third. *)
Lemma score_exact_rational_counterexample :
  exists a rk r,
    analyze survey = Ok a
    /\ In (rk, r) (ranking_df a)
    /\ course r = "C"
    /\ row_N r = n_responses a
    /\ exact_score r = (1 # 3)%Q
    /\ score r = (6004799503160661 # 18014398509481984)%Q
    /\ ~ (score r == exact_score r)%Q.
Proof.
  eexists. exists 3.
  exists (mkRow "C" (6004799503160661 # 18014398509481984) 0 1 1 3).
  split; [vm_compute; reflexivity|].
  split; [vm_compute; auto|].
  repeat split. vm_compute. discriminate.
Qed.

(** C1, amended. For every course of the finished tally the table holds a
    row with its three counts and N, and the score of every row is
    Python's float quotient of 2 * most + 1 * neutral + 0 * least by N:
    that quotient rounded to the nearest double, hence within 2^-53 of
    it in relative terms.  N is the number of rows left by the completion
    filter, whether or not they mention the course, and N is positive:
    with no row left the run stops with EmptyDataset before any
    scoring. *)
Theorem score_is_float_quotient (plot : plotter) (df : DataFrame) :
  (rows (completion_filter df) = [] ->
   main plot (Some df) = ([], Raise EmptyDataset))
  /\ forall a, analyze df = Ok a ->
     n_responses a = List.length (rows (completion_filter df))
     /\ 0 < n_responses a
     /\ (forall c v, In (c, v) (course_stats a) ->
           exists rk r, In (rk, r) (ranking_df a)
             /\ course r = c
             /\ row_most r = most v /\ row_neutral r = neutral v
             /\ row_least r = least v)
     /\ (forall rk r, In (rk, r) (ranking_df a) ->
           row_N r = n_responses a
           /\ In (course r,
                  mkCounts (row_most r) (row_neutral r) (row_least r))
                 (course_stats a)
           /\ score r
              = truediv
                  (Z.of_nat
                     (2 * row_most r + 1 * row_neutral r + 0 * row_least r))
                  (Z.of_nat (n_responses a))
           /\ (Qabs (score r - exact_score r)
               <= exact_score r * (1 # 2 ^ 53))%Q).
Proof.
  split.
  { intros Hrows. unfold main, analyze. rewrite Hrows. reflexivity. }
  intros a H.
  destruct (analyze_Ok df a H) as (HN & Hpos & _ & _ & _ & _ & _ & _ & Hr).
  split; [exact HN|]. split; [exact Hpos|]. split.
  - intros c v Hin. rewrite Hr.
    destruct (In_ranker (map (make_row (n_responses a)) (course_stats a))
                (make_row (n_responses a) (c, v))) as [rk Hrk].
    { apply in_map. exact Hin. }
    exists rk, (make_row (n_responses a) (c, v)).
    split; [exact Hrk|]. repeat split.
  - intros rk r Hin.
    destruct (ranking_row_origin df a rk r H Hin) as (HrN & Hstat & Hscore).
    repeat split; try assumption.
    unfold exact_score. rewrite HrN, Hscore.
    apply truediv_relative_error; lia.
Qed.

Lemma score_is_float_quotient_witness :
  main draws_all (Some (mkFrame survey_columns [[Str "no"; Str "A"; NA; NA]]))
  = ([], Raise EmptyDataset)
  /\ exists a, analyze survey = Ok a
       /\ n_responses a = 3
       /\ 0 < n_responses a.
Proof.
  split.
  - apply (score_is_float_quotient draws_all
             (mkFrame survey_columns [[Str "no"; Str "A"; NA; NA]])).
    reflexivity.
  - eexists. split; [vm_compute; reflexivity|].
    destruct (score_is_float_quotient draws_all survey) as [_ Hok].
    destruct (Hok _ eq_refl) as (HN & Hpos & _).
    split; [exact HN | exact Hpos].
Defined.

Lemma mentions_by_row cols bc c rs :
  mentions cols bc c rs = list_sum (map (row_mentions cols bc c) rs).
Proof.
  unfold mentions, bucket_mentions, row_mentions.
  induction rs as [|row rs IH]; simpl; lia.
Qed.

Lemma list_sum_at_most_one {A : Type} (f : A -> nat) l :
  (forall x, In x l -> f x <= 1) -> list_sum (map f l) <= List.length l.
Proof.
  induction l as [|x l IH]; simpl; intros H; [lia|].
  pose proof (H x (or_introl eq_refl)).
  assert (list_sum (map f l) <= List.length l) by (apply IH; auto).
  lia.
Qed.

(** C2, as stated, fails: a respondent who lists a course twice in the
    most-beneficial cell gives it 2 * 2 / 1 = 4. *)
Lemma score_at_most_two_counterexample :
  exists a rk r,
    analyze survey_twice = Ok a
    /\ In (rk, r) (ranking_df a)
    /\ course r = "A"
    /\ (score r == 4)%Q
    /\ ~ ((0 <= score r)%Q /\ (score r <= 2)%Q).
Proof.
  eexists. exists 1.
  exists (mkRow "A" (4503599627370496 # 1125899906842624) 2 0 0 1).
  split; [vm_compute; reflexivity|].
  split; [vm_compute; auto|].
  split; [reflexivity|]. split; [reflexivity|].
  intros [_ H]. vm_compute in H. apply H. reflexivity.
Qed.

(** C2, amended. Every score is at least 0.  It is at most 2 for a course
    that no retained row lists more than once over its three bucket
    cells; repeats within a cell or across cells can carry it higher. *)
Theorem score_bounds (df : DataFrame) (a : analysis)
  (rk : nat) (r : ranking_row) :
  analyze df = Ok a ->
  In (rk, r) (ranking_df a) ->
  (0 <= score r)%Q
  /\ ((forall row, In row (retained a) ->
         row_mentions (columns (completion_filter df)) (resolved a)
           (course r) row <= 1) ->
      (score r <= 2)%Q).
Proof.
  intros H Hin.
  destruct (analyze_Ok df a H) as (HN & Hpos & Hret & _).
  destruct (ranking_row_origin df a rk r H Hin) as (_ & _ & ->).
  split; [apply truediv_nonneg; lia|].
  intros Honce. apply truediv_le_2; try lia.
  pose proof (ranking_row_mentions df a rk r H Hin) as Hsum.
  rewrite mentions_by_row in Hsum.
  rewrite Hret in Honce.
  pose proof (list_sum_at_most_one _ _ Honce) as Hle.
  lia.
Qed.

Lemma score_bounds_witness :
  exists a r,
    analyze survey = Ok a /\ In (1, r) (ranking_df a)
    /\ course r = "A" /\ (0 <= score r)%Q /\ (score r <= 2)%Q.
Proof.
  eexists.
  exists (mkRow "A" (7505999378950827 # 4503599627370496) 2 1 0 3).
  split; [vm_compute; reflexivity|].
  match goal with
  | |- In ?x ?l /\ _ => assert (Hin : In x l) by (vm_compute; auto)
  end.
  split; [exact Hin|]. split; [reflexivity|].
  destruct (score_bounds survey _ 1 _ eq_refl Hin) as [H0 H2].
  split; [exact H0|]. apply H2.
  intros row Hrow. vm_compute in Hrow.
  destruct Hrow as [<-|[<-|[<-|[]]]]; vm_compute; lia.
Defined.

(** ** Tally keys *)

(** C10. Every key of the finished tally, and so every course of the
    ranking table, is a non-empty name without whitespace at either end,
    and its three counters add up to at least 1. *)
Theorem tally_keys_trimmed_and_counted (df : DataFrame) (a : analysis) :
  analyze df = Ok a ->
  (forall c v, In (c, v) (course_stats a) ->
     trimmed_nonempty c /\ 1 <= most v + neutral v + least v)
  /\ (forall rk r, In (rk, r) (ranking_df a) ->
       trimmed_nonempty (course r)
       /\ 1 <= row_most r + row_neutral r + row_least r).
Proof.
  intros H.
  destruct (analyze_Ok df a H) as (_ & _ & _ & _ & _ & _ & Ht & _ & _).
  assert (Hkeys : forall c v, In (c, v) (course_stats a) ->
            trimmed_nonempty c /\ 1 <= most v + neutral v + least v).
  { intros c v Hin. rewrite Ht in Hin.
    pose proof (tally_entries (columns (completion_filter df)) (resolved a)
                  (rows (completion_filter df))) as Hall.
    rewrite Forall_forall in Hall. exact (Hall (c, v) Hin). }
  split; [exact Hkeys|].
  intros rk r Hin.
  destruct (ranking_row_origin df a rk r H Hin) as (_ & Hstat & _).
  exact (Hkeys _ _ Hstat).
Qed.

Lemma tally_keys_trimmed_and_counted_witness :
  exists a, analyze survey = Ok a
    /\ trimmed_nonempty "B" /\ 1 <= 1 + 1 + 1.
Proof.
  eexists. split; [vm_compute; reflexivity|].
  destruct (tally_keys_trimmed_and_counted survey _ eq_refl) as [Hk _].
  apply (Hk "B" (mkCounts 1 1 1)). vm_compute. auto.
Defined.

(** ** Failures and outputs *)

Lemma tally_row_blank cols bc d row :
  (forall b, split_courses (loc cols row (bucket_col bc b)) = []) ->
  tally_row cols bc d row = d.
Proof.
  intros H. unfold tally_row, buckets.
  pose proof (H Most) as Hm. pose proof (H Neutral) as Hn.
  pose proof (H Least) as Hl. cbn [bucket_col] in Hm, Hn, Hl.
  rewrite Hm, Hn, Hl. reflexivity.
Qed.

Lemma tally_blank cols bc rs :
  (forall row b, In row rs ->
     split_courses (loc cols row (bucket_col bc b)) = []) ->
  tally cols bc rs = [].
Proof.
  unfold tally. generalize (@nil (string * counts)).
  induction rs as [|row rs IH]; intros d H; simpl; [reflexivity|].
  rewrite tally_row_blank by (intros b; apply H; left; reflexivity).
  apply IH. intros row' b Hin. apply H. right. exact Hin.
Qed.

Lemma analyze_errors df e :
  analyze df = Raise e ->
  e = EmptyDataset
  \/ (exists keyword matches, e = AmbiguousColumn keyword matches)
  \/ e = NoCoursesFound.
Proof.
  unfold analyze.
  destruct (List.length (rows (completion_filter df)) =? 0).
  { intros H. injection H as <-. left. reflexivity. }
  assert (Hres : forall kw x,
             find_group_column (columns (completion_filter df)) kw = Raise x ->
             exists keyword matches, x = AmbiguousColumn keyword matches).
  { intros kw x. unfold find_group_column.
    set (ms := filter _ _). intros Hx. exists kw, ms.
    destruct ms as [|c [|d l]]; try discriminate;
      injection Hx as <-; reflexivity. }
  destruct (find_group_column _ "Most Beneficial") as [mc|x] eqn:Em;
    [|intros H; injection H as <-; right; left; eapply Hres; exact Em].
  destruct (find_group_column _ "Neutral") as [nc|x] eqn:En;
    [|intros H; injection H as <-; right; left; eapply Hres; exact En].
  destruct (find_group_column _ "Least Beneficial") as [lc|x] eqn:El;
    [|intros H; injection H as <-; right; left; eapply Hres; exact El].
  cbn [bind].
  destruct (tally _ _ _); [|discriminate].
  intros H. injection H as <-. right. right. reflexivity.
Qed.

(** C9. When the analysis gets as far as the tally and every bucket cell
    of every retained row yields no course, the run fails with
    NoCoursesFound and has no effect at all.  Whenever the run fails with
    one of the four named errors, nothing has been done before it: no
    directory, no table file, no image file.  A failure that is not one
    of the four comes from the chart step, with the directory and the
    table written and the image not.  When the run succeeds, both files
    are written. *)
Theorem failure_writes_nothing (plot : plotter) :
  (forall df mc nc lc,
     let df' := completion_filter df in
     rows df' <> [] ->
     find_group_column (columns df') "Most Beneficial" = Ok mc ->
     find_group_column (columns df') "Neutral" = Ok nc ->
     find_group_column (columns df') "Least Beneficial" = Ok lc ->
     (forall row b, In row (rows df') ->
        split_courses
          (loc (columns df') row (bucket_col (mkBuckets mc nc lc) b)) = []) ->
     main plot (Some df) = ([], Raise NoCoursesFound))
  /\ (forall workbook e,
       snd (main plot workbook) = Raise e ->
       named_error e ->
       fst (main plot workbook) = [])
  /\ (forall workbook e,
       snd (main plot workbook) = Raise e ->
       (named_error e /\ fst (main plot workbook) = [])
       \/ (exists df a class_name text,
             workbook = Some df /\ analyze df = Ok a
             /\ plot (chart_bars a) = Some (class_name, text)
             /\ e = Propagated class_name text
             /\ fst (main plot workbook)
                = [Mkdir OUTPUT_DIR; ToCsv OUTPUT_CSV (ranking_df a)]))
  /\ (forall workbook,
       snd (main plot workbook) = Ok tt ->
       exists a,
         In (ToCsv OUTPUT_CSV (ranking_df a)) (fst (main plot workbook))
         /\ In (SaveFig OUTPUT_PNG
                  (map (fun r => (course (snd r), score (snd r)))
                       (head 15 (ranking_df a))))
               (fst (main plot workbook))).
Proof.
  assert (Hclass : forall workbook e,
            snd (main plot workbook) = Raise e ->
            (named_error e /\ fst (main plot workbook) = [])
            \/ (exists df a class_name text,
                  workbook = Some df /\ analyze df = Ok a
                  /\ plot (chart_bars a) = Some (class_name, text)
                  /\ e = Propagated class_name text
                  /\ fst (main plot workbook)
                     = [Mkdir OUTPUT_DIR; ToCsv OUTPUT_CSV (ranking_df a)])).
  { intros workbook e. unfold main, named_error.
    destruct workbook as [df|].
    - destruct (analyze df) as [a|x] eqn:Ea.
      + unfold report.
        destruct (plot (chart_bars a)) as [[class_name text]|] eqn:Ep;
          cbn [fst snd]; [|discriminate].
        intros H. injection H as <-. right.
        exists df, a, class_name, text. repeat split; assumption.
      + cbn [fst snd]. intros H. injection H as <-. left.
        split; [|reflexivity]. right. apply (analyze_errors df x Ea).
    - cbn [fst snd]. intros H. injection H as <-. left.
      split; [|reflexivity]. left. reflexivity. }
  split; [|split; [|split]].
  - intros df mc nc lc df' Hrows Hm Hn Hl Hblank.
    unfold main, analyze. fold df'.
    destruct (rows df') as [|row rs] eqn:Er; [contradiction|].
    cbn [List.length Nat.eqb].
    rewrite Hm, Hn, Hl. cbn [bind].
    rewrite tally_blank by exact Hblank. reflexivity.
  - intros workbook e He Hnamed.
    destruct (Hclass workbook e He)
      as [[_ Hnone]|(df & a & class_name & text & _ & _ & _ & -> & _)];
      [exact Hnone|].
    exfalso. unfold named_error, DatasetNotFound, EmptyDataset,
      AmbiguousColumn, NoCoursesFound in Hnamed.
    destruct Hnamed as [H|[H|[[kw [ms H]]|H]]]; discriminate.
  - exact Hclass.
  - intros workbook. unfold main.
    destruct workbook as [df|]; [|discriminate].
    destruct (analyze df) as [a|x]; [|discriminate].
    unfold report.
    destruct (plot (chart_bars a)) as [[class_name text]|];
      cbn [fst snd]; [discriminate|].
    intros _. exists a. unfold chart_bars. cbn [In]. split; auto.
Qed.

Lemma failure_writes_nothing_witness :
  main draws_all (Some survey_blank) = ([], Raise NoCoursesFound)
  /\ fst (main (refuses "A") None) = []
  /\ (exists a,
        In (ToCsv OUTPUT_CSV (ranking_df a))
           (fst (main draws_all (Some survey))))
  /\ exists a,
       main (refuses "A") (Some survey)
       = ([Mkdir OUTPUT_DIR; ToCsv OUTPUT_CSV (ranking_df a)],
          Raise (Propagated "ValueError" "ParseException")).
Proof.
  split; [|split; [|split]].
  - destruct (failure_writes_nothing draws_all) as (Hblank & _).
    apply (Hblank survey_blank
             "Courses - Groups - Most Beneficial"
             "Courses - Groups - Neutral"
             "Courses - Groups - Least Beneficial");
      try reflexivity; [vm_compute; discriminate|].
    intros row b Hin. vm_compute in Hin.
    destruct Hin as [<-|[]]. destruct b; reflexivity.
  - destruct (failure_writes_nothing (refuses "A")) as (_ & Hnamed & _).
    apply (Hnamed None DatasetNotFound); [reflexivity|].
    left. reflexivity.
  - destruct (failure_writes_nothing draws_all) as (_ & _ & _ & Hok).
    destruct (Hok (Some survey)) as [a [Ha _]]; [reflexivity|].
    exists a. exact Ha.
  - destruct (failure_writes_nothing (refuses "A")) as (_ & _ & Hclass & _).
    destruct (Hclass (Some survey)
                (Propagated "ValueError" "ParseException") eq_refl)
      as [[Hnamed _]|(df & a & class_name & text & Hw & Ha & _ & _ & Heff)].
    + exfalso. destruct Hnamed as [H|[H|[[kw [ms H]]|H]]]; discriminate.
    + exists a. rewrite (surjective_pairing (main (refuses "A") (Some survey))).
      rewrite Heff. reflexivity.
Defined.

(** * Further properties *)

(** ** Course extractor, continued *)

Lemma split_comma_app s1 s2 :
  PyStr.split_comma (s1 ++ String ","%char s2)%string
  = PyStr.split_comma s1 ++ PyStr.split_comma s2.
Proof.
  induction s1 as [|c s1 IH]; cbn [String.append PyStr.split_comma].
  - rewrite Ascii.eqb_refl. reflexivity.
  - destruct (Ascii.eqb c ","); rewrite IH; [reflexivity|].
    pose proof (PyStrFacts.split_comma_nonempty s1) as Hne.
    destruct (PyStr.split_comma s1); [contradiction | reflexivity].
Qed.

Lemma split_courses_comma (s1 s2 : string) :
  split_courses (Str (s1 ++ "," ++ s2))
  = split_courses (Str s1) ++ split_courses (Str s2).
Proof.
  unfold split_courses. cbn [isna str].
  change ("," ++ s2)%string with (String ","%char s2).
  rewrite split_comma_app, map_app, filter_app. reflexivity.
Qed.

(** X1. A comma placed between two texts joins their course lists: the
    courses of [s1 , s2] are those of [s1] followed by those of [s2]. *)
Theorem split_courses_concatenates (s1 s2 : string) :
  split_courses (Str (s1 ++ "," ++ s2))
  = split_courses (Str s1) ++ split_courses (Str s2).
Proof. apply split_courses_comma. Qed.

Lemma lstrip_trimmed s : PyStr.leading_space s = false -> PyStr.lstrip s = s.
Proof. destruct s; simpl; [reflexivity|]. intros ->. reflexivity. Qed.

Lemma rstrip_trimmed s : PyStr.trailing_space s = false -> PyStr.rstrip s = s.
Proof.
  induction s as [|c s IH]; [reflexivity|].
  cbn [PyStr.rstrip PyStr.trailing_space]. destruct s as [|d s].
  - intros ->. reflexivity.
  - intros H. rewrite (IH H). reflexivity.
Qed.

Lemma strip_trimmed s :
  PyStr.leading_space s = false -> PyStr.trailing_space s = false ->
  PyStr.strip s = s.
Proof.
  intros Hl Ht. unfold PyStr.strip. rewrite (lstrip_trimmed s Hl).
  apply rstrip_trimmed, Ht.
Qed.

Lemma split_comma_whole s :
  PyStr.has_comma s = false -> PyStr.split_comma s = [s].
Proof.
  unfold PyStr.has_comma.
  induction s as [|c s IH]; cbn [list_ascii_of_string existsb PyStr.split_comma];
    [reflexivity|].
  rewrite orb_false_iff. intros [Hc Hs]. rewrite Ascii.eqb_sym, Hc, (IH Hs).
  reflexivity.
Qed.

Lemma split_courses_name s :
  trimmed_nonempty s -> PyStr.has_comma s = false ->
  split_courses (Str s) = [s].
Proof.
  intros (Hne & Hl & Ht) Hc. unfold split_courses. cbn [isna str].
  rewrite (split_comma_whole s Hc). cbn [map filter].
  rewrite (strip_trimmed s Hl Ht).
  destruct s; [contradiction | reflexivity].
Qed.

Lemma split_courses_leading_space c s :
  PyStr.isspace c = true ->
  split_courses (Str (String c s)) = split_courses (Str s).
Proof.
  intros Hc. unfold split_courses. cbn [isna str PyStr.split_comma].
  assert (Hcomma : Ascii.eqb c ","%char = false).
  { destruct (Ascii.eqb_spec c ","%char) as [->|]; [|reflexivity].
    discriminate Hc. }
  rewrite Hcomma.
  pose proof (PyStrFacts.split_comma_nonempty s) as Hne.
  destruct (PyStr.split_comma s) as [|p ps]; [contradiction|].
  cbn [map]. unfold PyStr.strip at 1. cbn [PyStr.lstrip]. rewrite Hc.
  reflexivity.
Qed.

(** X2. Round trip: names that are non-empty, trimmed and free of commas,
    joined with ", ", are extracted again as the same list, repeats and
    order included. *)
Theorem split_courses_of_joined (names : list string) :
  Forall (fun s => trimmed_nonempty s /\ PyStr.has_comma s = false) names ->
  split_courses (Str (String.concat ", " names)) = names.
Proof.
  induction 1 as [|x l [Hx Hc] Hl IH]; [reflexivity|].
  destruct l as [|y l].
  - cbn [String.concat]. apply split_courses_name; assumption.
  - change (String.concat ", " (x :: y :: l))
      with (x ++ "," ++ String " "%char (String.concat ", " (y :: l)))%string.
    rewrite split_courses_comma, split_courses_leading_space
      by reflexivity.
    rewrite IH, (split_courses_name x Hx Hc). reflexivity.
Qed.

Lemma split_courses_of_joined_witness :
  split_courses (Str (String.concat ", " ["ACC 610"; "Tax II"; "ACC 610"]))
  = ["ACC 610"; "Tax II"; "ACC 610"].
Proof.
  apply split_courses_of_joined.
  repeat constructor; try discriminate.
Defined.

Lemma rstrip_all_space s : PyStr.all_space s = true -> PyStr.rstrip s = EmptyString.
Proof.
  unfold PyStr.all_space.
  induction s as [|c s IH]; cbn [list_ascii_of_string forallb PyStr.rstrip];
    [reflexivity|].
  rewrite andb_true_iff. intros [Hc Hs]. rewrite (IH Hs), Hc. reflexivity.
Qed.

Lemma lstrip_all_space s : PyStr.all_space s = true -> PyStr.lstrip s = EmptyString.
Proof.
  unfold PyStr.all_space.
  induction s as [|c s IH]; cbn [list_ascii_of_string forallb PyStr.lstrip];
    [reflexivity|].
  rewrite andb_true_iff. intros [Hc Hs]. rewrite Hc. exact (IH Hs).
Qed.

Lemma all_space_app s t :
  PyStr.all_space (s ++ t)%string = PyStr.all_space s && PyStr.all_space t.
Proof.
  unfold PyStr.all_space. induction s as [|c s IH]; simpl; [reflexivity|].
  rewrite IH. apply andb_assoc.
Qed.

Lemma strip_empty_iff s :
  PyStr.strip s = EmptyString <-> PyStr.all_space s = true.
Proof.
  split.
  - intros H. destruct (PyStrFacts.strip_decomposes s) as [l [r [Hs [Hl Hr]]]].
    rewrite H in Hs. rewrite Hs, all_space_app, Hl. exact Hr.
  - intros H. unfold PyStr.strip. rewrite (lstrip_all_space s H). reflexivity.
Qed.

Lemma split_comma_blank s :
  Forall (fun p => PyStr.all_space p = true) (PyStr.split_comma s)
  <-> blank_text s = true.
Proof.
  unfold blank_text.
  induction s as [|c s IH];
    cbn [PyStr.split_comma list_ascii_of_string forallb].
  - split; [reflexivity | intros _; repeat constructor].
  - destruct (Ascii.eqb c ","%char) eqn:Ec.
    + rewrite orb_true_r, andb_true_l, <- IH. split.
      * intros H. inversion H; assumption.
      * intros H. constructor; [reflexivity | exact H].
    + rewrite orb_false_r, andb_true_iff, <- IH.
      pose proof (PyStrFacts.split_comma_nonempty s) as Hne.
      destruct (PyStr.split_comma s) as [|p ps]; [contradiction|].
      unfold PyStr.all_space. cbn [list_ascii_of_string forallb]. split.
      * intros H. inversion H as [|? ? Hp Hps]; subst.
        apply andb_true_iff in Hp. destruct Hp as [Hc Hp].
        split; [exact Hc | constructor; assumption].
      * intros [Hc H]. inversion H as [|? ? Hp Hps]; subst.
        constructor; [|exact Hps].
        cbn [list_ascii_of_string forallb]. rewrite Hc. exact Hp.
Qed.

(** X3. A text cell yields no course exactly when every character of it
    is whitespace or a comma; the empty text is one such cell. *)
Theorem split_courses_empty_iff (s : string) :
  split_courses (Str s) = [] <-> blank_text s = true.
Proof.
  rewrite <- split_comma_blank. unfold split_courses. cbn [isna str].
  induction (PyStr.split_comma s) as [|p ps IH]; cbn [map filter].
  - split; [constructor | reflexivity].
  - destruct (PyStr.strip p) eqn:Ep; cbn [PyStr.truth].
    + rewrite IH. split.
      * intros H. constructor; [apply strip_empty_iff; exact Ep | exact H].
      * intros H. inversion H; assumption.
    + split; [discriminate|]. intros H. inversion H as [|? ? Hp _]; subst.
      apply strip_empty_iff in Hp. congruence.
Qed.

Lemma has_comma_app s t :
  PyStr.has_comma (s ++ t)%string = PyStr.has_comma s || PyStr.has_comma t.
Proof.
  unfold PyStr.has_comma. induction s as [|c s IH]; simpl; [reflexivity|].
  rewrite IH. apply orb_assoc.
Qed.

Lemma strip_keeps_comma_free p :
  PyStr.has_comma p = false -> PyStr.has_comma (PyStr.strip p) = false.
Proof.
  intros H. destruct (PyStrFacts.strip_decomposes p) as [l [r [Hp _]]].
  rewrite Hp, !has_comma_app in H.
  apply orb_false_iff in H. destruct H as [_ H].
  apply orb_false_iff in H. tauto.
Qed.

Lemma split_comma_length s :
  List.length (PyStr.split_comma s) = S (comma_count s).
Proof.
  unfold comma_count.
  induction s as [|c s IH]; cbn [PyStr.split_comma list_ascii_of_string filter];
    [reflexivity|].
  rewrite (Ascii.eqb_sym ","%char c).
  destruct (Ascii.eqb c ","%char).
  - cbn [List.length]. rewrite IH. reflexivity.
  - pose proof (PyStrFacts.split_comma_nonempty s) as Hne.
    destruct (PyStr.split_comma s); [contradiction | exact IH].
Qed.

(** X4. No extracted course name holds a comma, and a cell yields at most
    one name more than its text has commas. *)
Theorem split_courses_names_comma_free (value : cell) :
  Forall (fun name => PyStr.has_comma name = false) (split_courses value)
  /\ List.length (split_courses value) <= S (comma_count (str value)).
Proof.
  unfold split_courses. destruct (isna value).
  - split; [constructor | cbn; lia].
  - split.
    + apply Forall_forall. intros name Hin.
      apply filter_In in Hin. destruct Hin as [Hin _].
      apply in_map_iff in Hin. destruct Hin as [p [<- Hp]].
      apply strip_keeps_comma_free.
      pose proof (PyStrFacts.split_comma_no_comma (str value)) as Hall.
      rewrite Forall_forall in Hall. exact (Hall p Hp).
    + rewrite <- split_comma_length.
      etransitivity; [apply filter_length_le|]. rewrite length_map. lia.
Qed.

(** ** Completion filter and column resolver, continued *)

Lemma isspace_lower_char c : PyStr.isspace (PyStr.lower_char c) = PyStr.isspace c.
Proof. destruct c as [[] [] [] [] [] [] [] []]; reflexivity. Qed.

Lemma lower_char_idem c :
  PyStr.lower_char (PyStr.lower_char c) = PyStr.lower_char c.
Proof. destruct c as [[] [] [] [] [] [] [] []]; reflexivity. Qed.

Lemma lower_idem s : PyStr.lower (PyStr.lower s) = PyStr.lower s.
Proof.
  induction s as [|c s IH]; simpl; [reflexivity|].
  rewrite lower_char_idem, IH. reflexivity.
Qed.

Lemma lstrip_lower s :
  PyStr.lstrip (PyStr.lower s) = PyStr.lower (PyStr.lstrip s).
Proof.
  induction s as [|c s IH]; cbn [PyStr.lower PyStr.lstrip]; [reflexivity|].
  rewrite isspace_lower_char. destruct (PyStr.isspace c); [exact IH | reflexivity].
Qed.

Lemma rstrip_lower s :
  PyStr.rstrip (PyStr.lower s) = PyStr.lower (PyStr.rstrip s).
Proof.
  induction s as [|c s IH]; cbn [PyStr.lower PyStr.rstrip]; [reflexivity|].
  rewrite IH, isspace_lower_char.
  destruct (PyStr.rstrip s); cbn [PyStr.lower]; [|reflexivity].
  destruct (PyStr.isspace c); reflexivity.
Qed.

Lemma strip_lower s :
  PyStr.strip (PyStr.lower s) = PyStr.lower (PyStr.strip s).
Proof. unfold PyStr.strip. rewrite lstrip_lower. apply rstrip_lower. Qed.

Lemma rstrip_padding s r :
  PyStr.all_space r = true -> PyStr.rstrip (s ++ r)%string = PyStr.rstrip s.
Proof.
  intros Hr. induction s as [|c s IH]; cbn [String.append PyStr.rstrip].
  - apply rstrip_all_space, Hr.
  - rewrite IH. reflexivity.
Qed.

Lemma strip_right_padding s r :
  PyStr.all_space r = true -> PyStr.strip (s ++ r)%string = PyStr.strip s.
Proof.
  intros Hr. unfold PyStr.strip.
  induction s as [|c s IH]; cbn [String.append PyStr.lstrip].
  - rewrite (lstrip_all_space r Hr). reflexivity.
  - destruct (PyStr.isspace c); [exact IH|].
    exact (rstrip_padding (String c s) r Hr).
Qed.

Lemma strip_left_padding l s :
  PyStr.all_space l = true -> PyStr.strip (l ++ s)%string = PyStr.strip s.
Proof.
  unfold PyStr.strip, PyStr.all_space.
  induction l as [|c l IH];
    cbn [String.append PyStr.lstrip list_ascii_of_string forallb];
    [reflexivity|].
  rewrite andb_true_iff. intros [Hc Hl]. rewrite Hc. exact (IH Hl).
Qed.

(** X5. The finished flag does not depend on letter case nor on
    whitespace around the text: two cells whose texts agree after
    lowercasing get the same flag, and padding a text with whitespace on
    either side leaves its flag unchanged. *)
Theorem normalize_finished_ignores_case_and_padding :
  (forall v w, PyStr.lower (str v) = PyStr.lower (str w) ->
     normalize_finished [v] = normalize_finished [w])
  /\ (forall l s r,
        PyStr.all_space l = true -> PyStr.all_space r = true ->
        normalize_finished [Str (l ++ s ++ r)] = normalize_finished [Str s]).
Proof.
  split.
  - intros v w H. unfold normalize_finished. cbn [map].
    rewrite <- !strip_lower, H. reflexivity.
  - intros l s r Hl Hr. unfold normalize_finished. cbn [map str].
    rewrite (strip_left_padding l _ Hl), (strip_right_padding s r Hr).
    reflexivity.
Qed.

Lemma normalize_finished_ignores_case_and_padding_witness :
  normalize_finished [Str "YeS"] = normalize_finished [Scalar "yes"]
  /\ normalize_finished [Str "  true "] = normalize_finished [Str "true"].
Proof.
  destruct normalize_finished_ignores_case_and_padding as [Hcase Hpad].
  split.
  - apply Hcase. reflexivity.
  - apply (Hpad "  " "true" " "); reflexivity.
Defined.

Lemma filter_idem {A : Type} (f : A -> bool) l :
  filter f (filter f l) = filter f l.
Proof.
  induction l as [|x l IH]; simpl; [reflexivity|].
  destruct (f x) eqn:E; simpl; rewrite ?E, IH; reflexivity.
Qed.

(** X6. Filtering a filtered frame changes nothing. *)
Theorem completion_filter_idempotent (df : DataFrame) :
  completion_filter (completion_filter df) = completion_filter df.
Proof.
  unfold completion_filter.
  destruct (existsb (String.eqb "Finished") (columns df)) eqn:E;
    cbn [columns rows]; rewrite E; [|reflexivity].
  f_equal. unfold series, normalize_finished. cbn [columns rows].
  rewrite !map_map, !boolean_index_map. apply filter_idem.
Qed.

Lemma Permutation_filter_compat {A : Type} (f : A -> bool) l l' :
  Permutation l l' -> Permutation (filter f l) (filter f l').
Proof.
  induction 1 as [|x l l' _ IH|x y l|l l' l'' _ IH1 _ IH2]; simpl.
  - constructor.
  - destruct (f x); [constructor|]; exact IH.
  - destruct (f x), (f y); try reflexivity. apply perm_swap.
  - etransitivity; eassumption.
Qed.

(** X7. The resolver does not depend on the order of the columns: after
    any reordering a success returns the same column, and a failure stays
    a failure for the same keyword with the same matches, reordered. *)
Theorem find_group_column_ignores_column_order
  (cols cols' : list string) (keyword : string) :
  Permutation cols cols' ->
  (forall c, find_group_column cols keyword = Ok c ->
             find_group_column cols' keyword = Ok c)
  /\ (forall e, find_group_column cols keyword = Raise e ->
        exists matches matches',
          e = AmbiguousColumn keyword matches
          /\ Permutation matches matches'
          /\ find_group_column cols' keyword
             = Raise (AmbiguousColumn keyword matches')).
Proof.
  intros P.
  pose proof (Permutation_filter_compat
                (fun c => PyStr.contains "Groups" c
                          && PyStr.contains keyword c) _ _ P) as Pm.
  unfold find_group_column, AmbiguousColumn.
  set (ms := filter _ cols) in *. set (ms' := filter _ cols') in *.
  split.
  - intros c H. destruct ms as [|c0 [|d l]]; try discriminate.
    injection H as ->. apply Permutation_length_1_inv in Pm. rewrite Pm.
    reflexivity.
  - intros e H. exists ms, ms'.
    assert (Hlen : List.length ms' = List.length ms)
      by (symmetry; apply Permutation_length, Pm).
    destruct ms as [|c0 [|d l]]; try discriminate;
      injection H as <-; (split; [reflexivity|]); (split; [exact Pm|]);
      destruct ms' as [|c1 [|d1 l1]]; try discriminate; reflexivity.
Qed.

Lemma find_group_column_ignores_column_order_witness :
  find_group_column (rev survey_columns) "Neutral"
  = Ok "Courses - Groups - Neutral".
Proof.
  destruct (find_group_column_ignores_column_order
              survey_columns (rev survey_columns) "Neutral"
              (Permutation_rev survey_columns)) as [Hok _].
  apply Hok. reflexivity.
Defined.

(** ** Order of checks, order of rows *)

Lemma find_group_column_by_count cols keyword :
  (forall c, group_matches cols keyword = [c] ->
             find_group_column cols keyword = Ok c)
  /\ (List.length (group_matches cols keyword) <> 1 ->
      find_group_column cols keyword
      = Raise (AmbiguousColumn keyword (group_matches cols keyword))).
Proof.
  unfold find_group_column, AmbiguousColumn, group_matches.
  set (ms := filter _ cols). split.
  - intros c ->. reflexivity.
  - intros H. destruct ms as [|c [|d l]]; try reflexivity.
    exfalso. apply H. reflexivity.
Qed.


(** X8. The checks run in a fixed order and the first one that fails
    decides the error: no retained row gives EmptyDataset whatever the
    columns are; otherwise the first of "Most Beneficial", "Neutral",
    "Least Beneficial" without exactly one matching column gives
    AmbiguousColumn for that keyword, with its matches.  Nothing is
    written in any of these cases. *)
Theorem checks_run_in_order (plot : plotter) (df : DataFrame) :
  let rs := rows (completion_filter df) in
  let ms := group_matches (columns (completion_filter df)) in
  (rs = [] -> main plot (Some df) = ([], Raise EmptyDataset))
  /\ (rs <> [] ->
      List.length (ms "Most Beneficial") <> 1 ->
      main plot (Some df)
      = ([], Raise (AmbiguousColumn "Most Beneficial" (ms "Most Beneficial"))))
  /\ (rs <> [] ->
      List.length (ms "Most Beneficial") = 1 ->
      List.length (ms "Neutral") <> 1 ->
      main plot (Some df)
      = ([], Raise (AmbiguousColumn "Neutral" (ms "Neutral"))))
  /\ (rs <> [] ->
      List.length (ms "Most Beneficial") = 1 ->
      List.length (ms "Neutral") = 1 ->
      List.length (ms "Least Beneficial") <> 1 ->
      main plot (Some df)
      = ([], Raise (AmbiguousColumn "Least Beneficial"
                      (ms "Least Beneficial")))).
Proof.
  intros rs ms. unfold main, analyze. fold rs.
  assert (Hone : forall kw, List.length (ms kw) = 1 ->
            exists c, find_group_column (columns (completion_filter df)) kw
                      = Ok c).
  { intros kw H. unfold ms in H.
    destruct (group_matches (columns (completion_filter df)) kw)
      as [|c [|d l]] eqn:E; try discriminate.
    exists c. apply find_group_column_by_count. exact E. }
  assert (Hbad : forall kw, List.length (ms kw) <> 1 ->
            find_group_column (columns (completion_filter df)) kw
            = Raise (AmbiguousColumn kw (ms kw))).
  { intros kw H. apply find_group_column_by_count. exact H. }
  split; [intros ->; reflexivity|].
  assert (Hn : rs <> [] -> (List.length rs =? 0) = false).
  { intros H. destruct rs; [contradiction | reflexivity]. }
  split; [|split].
  - intros Hrs Hm. rewrite (Hn Hrs), (Hbad _ Hm). reflexivity.
  - intros Hrs Hm Hnn. destruct (Hone _ Hm) as [mc ->].
    rewrite (Hn Hrs), (Hbad _ Hnn). reflexivity.
  - intros Hrs Hm Hnn Hl. destruct (Hone _ Hm) as [mc ->].
    destruct (Hone _ Hnn) as [nc ->].
    rewrite (Hn Hrs), (Hbad _ Hl). reflexivity.
Qed.

Lemma checks_run_in_order_witness :
  main draws_all (Some (mkFrame ["Finished"] [[Str "no"]]))
  = ([], Raise EmptyDataset)
  /\ main draws_all (Some (mkFrame ["Finished"] [[Str "yes"]]))
     = ([], Raise (AmbiguousColumn "Most Beneficial" []))
  /\ main draws_all (Some (mkFrame ["Groups Most Beneficial"] [[Str "A"]]))
     = ([], Raise (AmbiguousColumn "Neutral" []))
  /\ main draws_all
       (Some (mkFrame ["Groups Most Beneficial"; "Groups Neutral"]
                [[Str "A"; Str "B"]]))
     = ([], Raise (AmbiguousColumn "Least Beneficial" [])).
Proof.
  split; [|split; [|split]].
  - apply (checks_run_in_order draws_all (mkFrame ["Finished"] [[Str "no"]])).
    reflexivity.
  - apply (checks_run_in_order draws_all
             (mkFrame ["Finished"] [[Str "yes"]]));
      vm_compute; discriminate.
  - apply (checks_run_in_order draws_all
             (mkFrame ["Groups Most Beneficial"] [[Str "A"]]));
      vm_compute; (reflexivity || discriminate).
  - apply (checks_run_in_order draws_all
             (mkFrame ["Groups Most Beneficial"; "Groups Neutral"]
                [[Str "A"; Str "B"]]));
      vm_compute; (reflexivity || discriminate).
Defined.

Lemma counts_ext (x y : counts) :
  (forall b, counter b x = counter b y) -> x = y.
Proof.
  intros H. destruct x, y.
  pose proof (H Most). pose proof (H Neutral). pose proof (H Least).
  simpl in *. congruence.
Qed.

Lemma bucket_mentions_perm cols bc b c rs rs' :
  Permutation rs rs' ->
  bucket_mentions cols bc b c rs = bucket_mentions cols bc b c rs'.
Proof.
  intros P. unfold bucket_mentions.
  apply Permutation_list_sum, Permutation_map, P.
Qed.

Lemma tally_entry_total cols bc rs k v :
  dict_get (tally cols bc rs) k = Some v -> 1 <= total v.
Proof.
  intros H. apply dict_get_In in H; [|apply tally_keys_NoDup].
  pose proof (tally_entries cols bc rs) as Hall.
  rewrite Forall_forall in Hall. exact (proj2 (Hall _ H)).
Qed.

Lemma tally_lookup_perm cols bc rs rs' k :
  Permutation rs rs' ->
  dict_get (tally cols bc rs) k = dict_get (tally cols bc rs') k.
Proof.
  intros P.
  assert (Heq : tally_of (tally cols bc rs) k = tally_of (tally cols bc rs') k).
  { apply counts_ext. intros b. rewrite !counter_tally.
    apply bucket_mentions_perm, P. }
  unfold tally_of in Heq.
  destruct (dict_get (tally cols bc rs) k) as [v|] eqn:E1,
           (dict_get (tally cols bc rs') k) as [v'|] eqn:E2;
    try congruence.
  - apply tally_entry_total in E1. subst v. cbv in E1. lia.
  - apply tally_entry_total in E2. subst v'. cbv in E2. lia.
Qed.

Lemma tally_perm cols bc rs rs' :
  Permutation rs rs' ->
  Permutation (tally cols bc rs) (tally cols bc rs').
Proof.
  intros P. apply NoDup_Permutation.
  - eapply NoDup_map_inv, tally_keys_NoDup.
  - eapply NoDup_map_inv, tally_keys_NoDup.
  - intros [k v].
    rewrite !dict_get_In by apply tally_keys_NoDup.
    rewrite (tally_lookup_perm cols bc rs rs' k P). reflexivity.
Qed.

Lemma completion_filter_perm df df' :
  columns df = columns df' ->
  Permutation (rows df) (rows df') ->
  columns (completion_filter df) = columns (completion_filter df')
  /\ Permutation (rows (completion_filter df)) (rows (completion_filter df')).
Proof.
  intros Hc P. unfold completion_filter. rewrite <- Hc.
  destruct (existsb (String.eqb "Finished") (columns df)); cbn [columns rows].
  - split; [reflexivity|].
    unfold series, normalize_finished. rewrite <- Hc, !map_map.
    rewrite !boolean_index_map. apply Permutation_filter_compat, P.
  - split; [exact Hc | exact P].
Qed.

(** X10. The order of the respondents does not matter: two sheets with
    the same columns and the same rows in a different order give the same
    outcome, the same table, chart and console output included. *)
Theorem main_ignores_row_order (plot : plotter) (df df' : DataFrame) :
  columns df = columns df' ->
  Permutation (rows df) (rows df') ->
  main plot (Some df) = main plot (Some df').
Proof.
  intros Hc P.
  destruct (completion_filter_perm df df' Hc P) as [Hcols Prows].
  unfold main, analyze. rewrite <- Hcols.
  rewrite <- (Permutation_length Prows).
  destruct (List.length (rows (completion_filter df)) =? 0); [reflexivity|].
  destruct (find_group_column _ "Most Beneficial") as [mc|]; [|reflexivity].
  destruct (find_group_column _ "Neutral") as [nc|]; [|reflexivity].
  destruct (find_group_column _ "Least Beneficial") as [lc|]; [|reflexivity].
  cbn [bind].
  pose proof (tally_perm (columns (completion_filter df))
                (mkBuckets mc nc lc) _ _ Prows) as Pt.
  pose proof (tally_keys_NoDup (columns (completion_filter df))
                (mkBuckets mc nc lc) (rows (completion_filter df))) as Hnd.
  set (n := List.length (rows (completion_filter df))) in *.
  assert (Hr : ranker (map (make_row n)
                         (tally (columns (completion_filter df))
                            (mkBuckets mc nc lc) (rows (completion_filter df))))
               = ranker (map (make_row n)
                           (tally (columns (completion_filter df))
                              (mkBuckets mc nc lc)
                              (rows (completion_filter df'))))).
  { apply ranker_permutation_invariant.
    - rewrite make_row_course. exact Hnd.
    - apply Permutation_map, Pt. }
  destruct (tally _ _ (rows (completion_filter df))) as [|kv cs] eqn:E1.
  - apply Permutation_nil in Pt. rewrite Pt. reflexivity.
  - destruct (tally _ _ (rows (completion_filter df'))) as [|kv' cs'] eqn:E2.
    + apply Permutation_sym, Permutation_nil in Pt. discriminate.
    + unfold report, chart_bars. cbn [ranking_df n_responses].
      rewrite Hr. reflexivity.
Qed.

Lemma main_ignores_row_order_witness :
  main draws_all (Some (mkFrame survey_columns (rev (rows survey))))
  = main draws_all (Some survey).
Proof.
  symmetry. apply main_ignores_row_order; [reflexivity|].
  apply Permutation_rev.
Defined.







(** ** Rounding, continued *)

Section MoreRounding.
Local Open Scope Z_scope.

Lemma round_half_even_ge num den M :
  0 < den -> M * den <= num -> M <= round_half_even num den.
Proof.
  intros Hd Hle.
  pose proof (Z.div_mod num den ltac:(lia)) as Hdm.
  pose proof (Z.mod_pos_bound num den Hd) as Hr.
  assert (M <= num / den) by (apply Z.div_le_lower_bound; lia).
  destruct (round_half_even_cases num den Hd) as [-> | [-> _]]; lia.
Qed.

Lemma round_half_even_multiple k den :
  0 < den -> round_half_even (k * den) den = k.
Proof.
  intros Hd. unfold round_half_even.
  rewrite Z.div_mul, Z.mod_mul by lia.
  destruct (Z.compare_spec (2 * 0) den); try reflexivity; lia.
Qed.

Lemma ldexp_pos m e : 0 < m -> (0 < ldexp m e)%Q.
Proof.
  intros Hm. unfold ldexp, Qlt. destruct (0 <=? e) eqn:E; cbn [Qnum Qden inject_Z].
  - apply Z.leb_le in E. pose proof (Z.pow_pos_nonneg 2 e ltac:(lia) E). nia.
  - lia.
Qed.

Lemma truediv_pos a b : 0 < a -> 0 < b -> (0 < truediv a b)%Q.
Proof.
  intros Ha Hb.
  destruct (truediv_correctly_rounded a b Ha Hb) as (-> & [Hlo _] & _).
  pose proof (scaled_pos a b (ulp_exponent a b) ltac:(lia) Hb) as [_ Hden].
  apply ldexp_pos.
  assert (2 ^ 52 <= round_half_even (fst (scaled a b (ulp_exponent a b)))
                      (snd (scaled a b (ulp_exponent a b))))
    by (apply round_half_even_ge; assumption).
  assert (0 < 2 ^ 52) by reflexivity. lia.
Qed.

(** A quotient that is a whole number below 2^53 is computed exactly. *)
Lemma truediv_multiple q b :
  0 <= q < 2 ^ 53 -> 0 < b -> (truediv (q * b) b == inject_Z q)%Q.
Proof.
  intros [Hq0 Hq] Hb.
  destruct (Z.eq_dec q 0) as [->|Hne]; [reflexivity|].
  assert (Ha : 0 < q * b) by nia.
  destruct (truediv_correctly_rounded (q * b) b Ha Hb) as (-> & [Hlo _] & _).
  set (e := ulp_exponent (q * b) b) in *. clearbody e.
  unfold scaled, ldexp in *. destruct (0 <=? e) eqn:E; cbn [fst snd] in *.
  - apply Z.leb_le in E.
    assert (He : e = 0).
    { destruct (Z.eq_dec e 0) as [|Hn]; [assumption|]. exfalso.
      assert (2 ^ 1 <= 2 ^ e) by (apply Z.pow_le_mono_r; lia).
      change (2 ^ 1) with 2 in *.
      assert (2 ^ 53 = 2 * 2 ^ 52) by reflexivity.
      assert (0 < 2 ^ 52) by reflexivity. nia. }
    subst e. change (2 ^ 0) with 1. rewrite !Z.mul_1_r.
    rewrite round_half_even_multiple by exact Hb. reflexivity.
  - apply Z.leb_gt in E.
    pose proof (Z.pow_pos_nonneg 2 (- e) ltac:(lia) ltac:(lia)) as Hp.
    replace (q * b * 2 ^ (- e)) with (q * 2 ^ (- e) * b) by ring.
    rewrite round_half_even_multiple by exact Hb.
    unfold Qeq. cbn [Qnum Qden inject_Z]. rewrite Z2Pos.id by exact Hp. ring.
Qed.

Lemma small_numerator_exponent a b :
  0 < a < 2 ^ 51 -> 0 < b ->
  let e := ulp_exponent a b in
  e < 0
  /\ 2 ^ 52 * b <= a * 2 ^ (- e) < 2 ^ 53 * b
  /\ 2 * b < 2 ^ (- e)
  /\ truediv a b = Qmake (round_half_even (a * 2 ^ (- e)) b) (Z.to_pos (2 ^ (- e))).
Proof.
  intros [Ha Ha51] Hb e.
  destruct (truediv_correctly_rounded a b Ha Hb) as (Hv & Hn & _).
  fold e in Hv, Hn. unfold scaled, ldexp in *.
  assert (T52 : 2 ^ 52 = 2 * 2 ^ 51) by reflexivity.
  assert (T51 : 0 < 2 ^ 51) by reflexivity.
  destruct (0 <=? e) eqn:E; cbn [fst snd] in *.
  - exfalso. apply Z.leb_le in E.
    pose proof (Z.pow_pos_nonneg 2 e ltac:(lia) E) as Hp.
    destruct Hn as [Hlo _]. nia.
  - apply Z.leb_gt in E. repeat split; try lia; try exact Hv.
    pose proof (Z.pow_pos_nonneg 2 (- e) ltac:(lia) ltac:(lia)) as Hp.
    destruct Hn as [Hlo _]. revert Hlo Hp. generalize (2 ^ (- e)).
    intros P Hlo Hp. rewrite T52 in Hlo. nia.
Qed.

(** Below 2^51 a larger numerator gives a strictly larger double: rounding
    neither merges nor swaps two quotients over the same denominator. *)
Lemma truediv_increasing a a' b :
  0 <= a < a' -> a' < 2 ^ 51 -> 0 < b -> (truediv a b < truediv a' b)%Q.
Proof.
  intros [Ha Hlt] Ha' Hb.
  destruct (Z.eq_dec a 0) as [->|Hne];
    [apply truediv_pos; lia|].
  destruct (small_numerator_exponent a b ltac:(lia) Hb)
    as (He & [Hlo Hhi] & HP & ->).
  destruct (small_numerator_exponent a' b ltac:(lia) Hb)
    as (He' & [Hlo' Hhi'] & HP' & ->).
  set (e := ulp_exponent a b) in *. set (e' := ulp_exponent a' b) in *.
  clearbody e e'.
  pose proof (round_half_even_nearest (a * 2 ^ (- e)) b Hb) as [Hr _].
  pose proof (round_half_even_nearest (a' * 2 ^ (- e')) b Hb) as [Hr' _].
  pose proof (round_half_even_le (a * 2 ^ (- e)) b (2 ^ 53) Hb ltac:(lia)) as Hm.
  pose proof (round_half_even_ge (a' * 2 ^ (- e')) b (2 ^ 52) Hb Hlo') as Hm'.
  set (m := round_half_even (a * 2 ^ (- e)) b) in *.
  set (m' := round_half_even (a' * 2 ^ (- e')) b) in *.
  clearbody m m'.
  pose proof (Z.pow_pos_nonneg 2 (- e) ltac:(lia) ltac:(lia)) as HPp.
  pose proof (Z.pow_pos_nonneg 2 (- e') ltac:(lia) ltac:(lia)) as HPp'.
  assert (T53 : 2 ^ 53 = 2 * 2 ^ 52) by reflexivity.
  assert (T52 : 0 < 2 ^ 52) by reflexivity.
  unfold Qlt. cbn [Qnum Qden]. rewrite !Z2Pos.id by assumption.
  assert (Hee : e <= e').
  { destruct (Z.le_gt_cases e e') as [|Hgt]; [assumption|]. exfalso.
    assert (HK : 2 ^ (- e') = 2 ^ (- e) * 2 ^ (e - e')).
    { rewrite <- Z.pow_add_r by lia. f_equal. lia. }
    assert (2 ^ 1 <= 2 ^ (e - e')) by (apply Z.pow_le_mono_r; lia).
    change (2 ^ 1) with 2 in *.
    revert HK H Hlo Hhi Hlo' Hhi' HPp HPp'. rewrite T53.
    generalize (2 ^ (- e)) (2 ^ (- e')) (2 ^ (e - e')) (2 ^ 52).
    intros P P' K t52 HK HK2 Hlo Hhi Hlo' Hhi' HPp HPp'. subst P'.
    assert (a * P < a' * P) by nia.
    assert (a' * P * 2 <= a' * P * K) by nia.
    replace (a' * (P * K)) with (a' * P * K) in Hhi' by ring.
    lia. }
  assert (HK : 2 ^ (- e) = 2 ^ (- e') * 2 ^ (e' - e)).
  { rewrite <- Z.pow_add_r by lia. f_equal. lia. }
  destruct (Z.eq_dec e e') as [Heq|Hneq].
  - subst e'. clear HK.
    revert Hr Hr' Hlo Hhi Hlo' Hhi' HP HPp Hm Hm'.
    generalize (2 ^ (- e)). intros P. intros.
    assert (a + 1 <= a') by lia.
    assert (m < m'); [|nia].
    assert (2 * m * b <= 2 * a * P + b) by lia.
    assert (2 * a' * P - b <= 2 * m' * b) by lia.
    assert (2 * a * P + 2 * P <= 2 * a' * P) by nia.
    assert (2 * m * b + 2 * b < 2 * m' * b) by lia.
    nia.
  - assert (HK2 : 2 ^ 1 <= 2 ^ (e' - e)) by (apply Z.pow_le_mono_r; lia).
    change (2 ^ 1) with 2 in HK2.
    revert HK HK2 Hr Hr' Hlo Hhi Hlo' Hhi' HP HP' HPp HPp' Hm Hm'.
    generalize (2 ^ (- e)) (2 ^ (- e')) (2 ^ (e' - e)).
    intros P P' K. intros. subst P.
    assert (Hmm : m < m' * K); [|nia].
    destruct (Z.eq_dec m (m' * K)) as [Heq|]; [|nia].
    exfalso.
    assert (K = 2) by nia. subst K.
    assert (m' = 2 ^ 52) by nia.
    assert (m = 2 ^ 53) by lia. subst m m'.
    assert (a + 1 <= a') by lia.
    assert (4 * a * P' + 4 * P' <= 4 * a' * P') by nia.
    assert (2 * 2 ^ 53 * b <= 2 * (a * (P' * 2)) + b) by lia.
    assert (2 * (a' * P') <= 2 * 2 ^ 52 * b + b) by lia.
    nia.
Qed.

End MoreRounding.

(** ** Scores and ranks in the table *)

Lemma score_of_row df a rk r :
  analyze df = Ok a -> In (rk, r) (ranking_df a) ->
  0 < n_responses a
  /\ row_N r = n_responses a
  /\ score r = truediv (Z.of_nat (numerator r)) (Z.of_nat (n_responses a)).
Proof.
  intros H Hin.
  destruct (analyze_Ok df a H) as (_ & Hpos & _).
  destruct (ranking_row_origin df a rk r H Hin) as (HN & _ & Hs).
  repeat split; assumption.
Qed.

(** X11. A course scores 0 exactly when it was never listed as most
    beneficial nor as neutral, that is, only as least beneficial. *)
Theorem score_zero_iff (df : DataFrame) (a : analysis)
  (rk : nat) (r : ranking_row) :
  analyze df = Ok a ->
  In (rk, r) (ranking_df a) ->
  ((score r == 0)%Q <-> row_most r = 0 /\ row_neutral r = 0).
Proof.
  intros H Hin. destruct (score_of_row df a rk r H Hin) as (Hpos & _ & ->).
  unfold numerator. split.
  - intros Hz.
    destruct (Nat.eq_dec (2 * row_most r + 1 * row_neutral r + 0 * row_least r) 0)
      as [E|E]; [lia|].
    exfalso.
    assert (Hp : (0 < truediv
                      (Z.of_nat
                         (2 * row_most r + 1 * row_neutral r + 0 * row_least r))
                      (Z.of_nat (n_responses a)))%Q)
      by (apply truediv_pos; lia).
    rewrite Hz in Hp. exact (Qlt_irrefl 0 Hp).
  - intros [-> ->]. reflexivity.
Qed.

Lemma score_zero_iff_witness :
  exists a r, analyze (mkFrame survey_columns [[Str "yes"; Str "A"; NA; Str "Z"]])
              = Ok a
    /\ In (2, r) (ranking_df a) /\ course r = "Z" /\ (score r == 0)%Q.
Proof.
  eexists. exists (mkRow "Z" 0 0 0 1 1).
  split; [vm_compute; reflexivity|].
  match goal with
  | |- In ?x ?l /\ _ => assert (Hin : In x l) by (vm_compute; auto)
  end.
  split; [exact Hin|]. split; [reflexivity|].
  apply (score_zero_iff
           (mkFrame survey_columns [[Str "yes"; Str "A"; NA; Str "Z"]])
           _ 2 _ eq_refl Hin).
  split; reflexivity.
Defined.

(** X12. When N divides 2 * most + neutral the division is exact: the
    score is that whole quotient (below 2^53), with no rounding error. *)
Theorem score_exact_when_N_divides (df : DataFrame) (a : analysis)
  (rk : nat) (r : ranking_row) (q : nat) :
  analyze df = Ok a ->
  In (rk, r) (ranking_df a) ->
  numerator r = q * n_responses a ->
  (Z.of_nat q < 2 ^ 53)%Z ->
  (score r == inject_Z (Z.of_nat q))%Q /\ (score r == exact_score r)%Q.
Proof.
  intros H Hin Hq Hsmall.
  destruct (score_of_row df a rk r H Hin) as (Hpos & HN & Hs).
  assert (Hsq : (score r == inject_Z (Z.of_nat q))%Q).
  { rewrite Hs, Hq, Nat2Z.inj_mul. apply truediv_multiple; lia. }
  split; [exact Hsq|]. rewrite Hsq.
  unfold exact_score. fold (numerator r). rewrite HN, Hq, Nat2Z.inj_mul.
  unfold Qeq, Qdiv, Qmult, Qinv, inject_Z. cbn [Qnum Qden].
  destruct (Z.of_nat (n_responses a)) as [|p|p] eqn:Ep; try lia.
  cbn [Qnum Qden]. rewrite Pos2Z.inj_mul. ring.
Qed.

Lemma score_exact_when_N_divides_witness :
  exists a r, analyze survey = Ok a /\ In (2, r) (ranking_df a)
    /\ course r = "B" /\ (score r == 1)%Q.
Proof.
  eexists. exists (mkRow "B" (4503599627370496 # 4503599627370496) 1 1 1 3).
  split; [vm_compute; reflexivity|].
  match goal with
  | |- In ?x ?l /\ _ => assert (Hin : In x l) by (vm_compute; auto)
  end.
  split; [exact Hin|]. split; [reflexivity|].
  apply (score_exact_when_N_divides survey _ 2 _ 1 eq_refl Hin); reflexivity.
Defined.

Lemma insert_rank_sorted_from l :
  forall s,
    StronglySorted (fun x y => row_leb x y = true) l ->
    StronglySorted ranked_before
      (combine (map (fun i => i + 1) (seq s (List.length l))) l).
Proof.
  induction l as [|x l IH]; intros s Hs; cbn [List.length seq map combine];
    [constructor|].
  inversion Hs as [|? ? Hl Hx]; subst.
  constructor; [apply IH; exact Hl|].
  apply Forall_forall. intros [i y] Hin.
  pose proof (in_combine_l _ _ _ _ Hin) as Hi.
  pose proof (in_combine_r _ _ _ _ Hin) as Hy.
  apply in_map_iff in Hi. destruct Hi as [j [<- Hj]]. apply in_seq in Hj.
  rewrite Forall_forall in Hx. split; cbn [fst snd]; [lia | exact (Hx y Hy)].
Qed.

Lemma insert_rank_sorted l :
  StronglySorted (fun x y => row_leb x y = true) l ->
  StronglySorted ranked_before (insert_rank l).
Proof. apply insert_rank_sorted_from. Qed.

Lemma ranking_sorted rows_ : StronglySorted ranked_before (ranker rows_).
Proof. apply insert_rank_sorted, sort_values_sorted. Qed.

Lemma StronglySorted_pair {A : Type} (R : A -> A -> Prop) l x y :
  StronglySorted R l -> In x l -> In y l -> x = y \/ R x y \/ R y x.
Proof.
  induction 1 as [|z l Hs IH Hz]; [contradiction|].
  rewrite Forall_forall in Hz.
  intros [->|Hx] [->|Hy]; auto.
Qed.

Lemma StronglySorted_split {A : Type} (R : A -> A -> Prop) l1 l2 x y :
  StronglySorted R (l1 ++ l2) -> In x l1 -> In y l2 -> R x y.
Proof.
  induction l1 as [|z l1 IH]; [contradiction|].
  cbn [app]. intros Hs Hx Hy. inversion Hs as [|? ? Hl Hz]; subst.
  destruct Hx as [->|Hx]; [|apply IH; assumption].
  rewrite Forall_forall in Hz. apply Hz, in_or_app. right. exact Hy.
Qed.

Lemma row_leb_score x y : row_leb x y = true -> (score y <= score x)%Q.
Proof.
  intros H. apply row_leb_precedes in H. destruct H as [H|[H _]].
  - apply Qlt_le_weak, H.
  - rewrite H. apply Qle_refl.
Qed.

(** X13. Rounding to a double neither merges nor swaps courses: for two
    rows of one table with 2 * most + neutral below 2^51, the scores
    compare as these numerators do, and the row with the smaller rank
    never has the smaller numerator. *)
Theorem rounding_keeps_the_order (df : DataFrame) (a : analysis)
  (rk1 rk2 : nat) (r1 r2 : ranking_row) :
  analyze df = Ok a ->
  In (rk1, r1) (ranking_df a) ->
  In (rk2, r2) (ranking_df a) ->
  (Z.of_nat (numerator r1) < 2 ^ 51)%Z ->
  (Z.of_nat (numerator r2) < 2 ^ 51)%Z ->
  Qcompare (score r1) (score r2) = Nat.compare (numerator r1) (numerator r2)
  /\ (rk1 < rk2 -> numerator r2 <= numerator r1).
Proof.
  intros H Hin1 Hin2 Hb1 Hb2.
  destruct (score_of_row df a rk1 r1 H Hin1) as (Hpos & _ & Hs1).
  destruct (score_of_row df a rk2 r2 H Hin2) as (_ & _ & Hs2).
  assert (Hcmp : Qcompare (score r1) (score r2)
                 = Nat.compare (numerator r1) (numerator r2)).
  { rewrite Hs1, Hs2.
    destruct (Nat.compare_spec (numerator r1) (numerator r2)) as [E|E|E].
    - rewrite E. apply Qeq_alt. reflexivity.
    - apply Qlt_alt, truediv_increasing; lia.
    - apply Qgt_alt, truediv_increasing; lia. }
  split; [exact Hcmp|]. intros Hrk.
  destruct (analyze_Ok df a H) as (_ & _ & _ & _ & _ & _ & _ & _ & Hr).
  rewrite Hr in Hin1, Hin2.
  destruct (StronglySorted_pair ranked_before _ _ _
              (ranking_sorted _) Hin1 Hin2) as [Heq|[[_ Hle]|[Hlt _]]];
    cbn [fst snd] in *.
  - injection Heq as -> _. lia.
  - apply row_leb_score in Hle.
    destruct (Nat.lt_ge_cases (numerator r1) (numerator r2)) as [E|E]; [|lia].
    exfalso. apply (Qlt_not_le (score r1) (score r2)); [|exact Hle].
    rewrite Hs1, Hs2. apply truediv_increasing; lia.
  - lia.
Qed.

Lemma rounding_keeps_the_order_witness :
  exists a r1 r2, analyze survey = Ok a
    /\ In (1, r1) (ranking_df a) /\ In (3, r2) (ranking_df a)
    /\ course r1 = "A" /\ course r2 = "C"
    /\ numerator r2 <= numerator r1.
Proof.
  eexists.
  exists (mkRow "A" (7505999378950827 # 4503599627370496) 2 1 0 3).
  exists (mkRow "C" (6004799503160661 # 18014398509481984) 0 1 1 3).
  split; [vm_compute; reflexivity|].
  match goal with
  | |- In ?x ?l /\ In ?y _ /\ _ =>
      assert (Hin1 : In x l) by (vm_compute; auto);
      assert (Hin2 : In y l) by (vm_compute; auto 6)
  end.
  split; [exact Hin1|]. split; [exact Hin2|].
  split; [reflexivity|]. split; [reflexivity|].
  apply (rounding_keeps_the_order survey _ 1 3 _ _ eq_refl Hin1 Hin2);
    [reflexivity | reflexivity | lia].
Defined.

Lemma firstn_seq n : forall s k, firstn n (seq s k) = seq s (min n k).
Proof.
  induction n as [|n IH]; intros s [|k]; cbn [firstn seq min Nat.min];
    try reflexivity.
  f_equal. apply IH.
Qed.

(** X14. The first n lines of the table (n = 15 for the chart, n = 10
    for the console) carry the ranks 1, 2, ... up to n or the number of
    courses, whichever is smaller, and every line left out has a larger
    rank and a score no higher than every line shown. *)
Theorem head_shows_the_best (df : DataFrame) (a : analysis) (n : nat) :
  analyze df = Ok a ->
  map fst (head n (ranking_df a))
  = seq 1 (min n (List.length (course_stats a)))
  /\ (forall x y,
        In x (head n (ranking_df a)) ->
        In y (skipn n (ranking_df a)) ->
        fst x < fst y /\ (score (snd y) <= score (snd x))%Q).
Proof.
  intros H.
  destruct (analyze_Ok df a H) as (_ & _ & _ & _ & _ & _ & _ & _ & Hr).
  unfold head. split.
  - rewrite <- firstn_map, Hr. unfold ranker.
    rewrite insert_rank_ranks, sort_values_length, length_map.
    apply firstn_seq.
  - intros x y Hx Hy.
    pose proof (ranking_sorted (map (make_row (n_responses a)) (course_stats a)))
      as Hs.
    rewrite <- Hr, <- (firstn_skipn n (ranking_df a)) in Hs.
    destruct (StronglySorted_split _ _ _ _ _ Hs Hx Hy) as [Hlt Hle].
    split; [exact Hlt | apply row_leb_score, Hle].
Qed.

Lemma head_shows_the_best_witness :
  exists a, analyze survey = Ok a
    /\ map fst (head 2 (ranking_df a)) = [1; 2].
Proof.
  eexists. split; [vm_compute; reflexivity|].
  destruct (head_shows_the_best survey _ 2 eq_refl) as [Hr _]. exact Hr.
Defined.

(** ** Bar labels *)

Lemma cut_at_point_app a b :
  point_free a = true ->
  cut_at_point (a ++ String "."%char b) = (a, b).
Proof.
  unfold point_free.
  induction a as [|c a IH];
    cbn [String.append cut_at_point list_ascii_of_string existsb].
  - reflexivity.
  - rewrite negb_orb, andb_true_iff, (Ascii.eqb_sym "."%char c).
    intros [Hc Ha]. apply negb_true_iff in Hc. rewrite Hc, (IH Ha).
    reflexivity.
Qed.

Lemma point_free_app a b :
  point_free (a ++ b) = point_free a && point_free b.
Proof.
  unfold point_free. induction a as [|c a IH]; cbn; [reflexivity|].
  rewrite !negb_orb in *. rewrite IH. apply andb_assoc.
Qed.

Lemma string_of_uint_point_free d :
  point_free (NilEmpty.string_of_uint d) = true.
Proof.
  induction d; cbn [NilEmpty.string_of_uint]; try reflexivity;
    unfold point_free in *; cbn [list_ascii_of_string existsb];
    rewrite negb_orb, IHd; reflexivity.
Qed.

Lemma decimal_point_free n : point_free (decimal n) = true.
Proof.
  unfold decimal, NilZero.string_of_uint.
  destruct (N.to_uint (Z.to_N n)); try reflexivity;
    apply string_of_uint_point_free.
Qed.

Lemma decimal_reads_back n :
  (0 <= n)%Z ->
  option_map (fun u => Z.of_N (N.of_uint u))
    (NilZero.uint_of_string (decimal n)) = Some n.
Proof.
  intros Hn. unfold decimal.
  rewrite NilZero.usu.
  - cbn [option_map]. rewrite DecimalN.Unsigned.of_to, Z2N.id by exact Hn.
    reflexivity.
  - destruct (Z.to_N n); [discriminate|].
    apply DecimalPos.Unsigned.to_uint_nonnil.
Qed.

Lemma digit_reads_back d :
  (0 <= d < 10)%Z -> digit_value (digit_char d) = Some d.
Proof.
  intros Hd.
  assert (H : (d = 0 \/ d = 1 \/ d = 2 \/ d = 3 \/ d = 4 \/ d = 5 \/ d = 6
               \/ d = 7 \/ d = 8 \/ d = 9)%Z) by lia.
  repeat (destruct H as [->|H]; [reflexivity|]). subst. reflexivity.
Qed.

(** X15. The label of a bar is the score to two decimals: read back as a
    number of hundredths it is [hundredths], the whole number of
    hundredths nearest to the score, so it is off by at most 0.005. *)
Theorem label_is_score_to_the_hundredth (x : Q) :
  (0 <= x)%Q ->
  read_2f (format_2f x) = Some (hundredths x)
  /\ (Qabs (inject_Z (hundredths x) / 100 - x) <= 1 # 200)%Q.
Proof.
  intros Hx. split.
  - unfold read_2f, format_2f.
    assert (Hh : (0 <= hundredths x)%Z).
    { unfold hundredths. apply round_half_even_nonneg; [|reflexivity].
      unfold Qle in Hx. cbn in Hx. lia. }
    set (h := hundredths x) in *. clearbody h.
    change ("." ++ ?t)%string with (String "."%char t).
    rewrite cut_at_point_app by apply decimal_point_free.
    pose proof (decimal_reads_back (h / 100) ltac:(apply Z.div_pos; lia)) as Hd.
    destruct (NilZero.uint_of_string (decimal (h / 100))) as [u|];
      [|discriminate]. cbn [option_map] in Hd. injection Hd as Hd.
    pose proof (Z.mod_pos_bound h 100 ltac:(lia)) as Hm.
    pose proof (Z.mod_pos_bound h 10 ltac:(lia)) as Hm10.
    rewrite digit_reads_back
      by (split; [apply Z.div_pos; lia | apply Z.div_lt_upper_bound; lia]).
    rewrite digit_reads_back by exact Hm10.
    f_equal. rewrite Hd.
    pose proof (Z.div_mod h 100 ltac:(lia)) as E1.
    pose proof (Z.div_mod (h mod 100) 10 ltac:(lia)) as E2.
    rewrite (Z.mod_mod_divide h 100 10) in E2 by (exists 10%Z; reflexivity).
    lia.
  - unfold hundredths.
    pose proof (round_half_even_nearest (Qnum x * 100) (Z.pos (Qden x))
                  ltac:(reflexivity)) as [Hn _].
    set (h := round_half_even (Qnum x * 100) (Z.pos (Qden x))) in *.
    clearbody h. destruct x as [num den].
    cbv [Qle Qabs Qminus Qplus Qopp Qmult Qdiv Qinv inject_Z Qnum Qden] in *.
    rewrite !Pos2Z.inj_mul, !Z.mul_1_r.
    change (Z.pos 100) with 100%Z. change (Z.pos 200) with 200%Z.
    replace (h * Z.pos den + - num * 100)%Z
      with (h * Z.pos den - num * 100)%Z by ring.
    lia.
Qed.

Lemma label_is_score_to_the_hundredth_witness :
  format_2f (truediv 5 3) = "1.67"
  /\ read_2f "1.67" = Some 167%Z
  /\ (Qabs (inject_Z 167 / 100 - truediv 5 3) <= 1 # 200)%Q.
Proof.
  destruct (label_is_score_to_the_hundredth (truediv 5 3)) as [Hr Hq];
    [vm_compute; discriminate|].
  split; [reflexivity|]. split; [exact Hr | exact Hq].
Defined.

Example scenario_annotations :
  exists a, analyze survey = Ok a
    /\ annotations (head 15 (ranking_df a)) = ["1.67"; "1.00"; "0.33"].
Proof. eexists. split; [vm_compute; reflexivity | reflexivity]. Qed.

Example format_2f_ties :
  map format_2f [1 # 8; 3 # 8; 0; 12]%Q = ["0.12"; "0.38"; "0.00"; "12.00"].
Proof. reflexivity. Qed.
